(** * LawGPT KSA: ingestion, retrieval and answer composition

    A shallow embedding of [pdf_processor.py] (text normalizer, chunker,
    filename categorizer) and of [lawgpt_utils.py] (retrieval orchestrator,
    answer composer), with the properties the specification states about
    them.

    Python values are modelled as follows.
    - [str] is a list of Unicode code points ([N]); ASCII literals are
      written [u "..."].
    - [int] is [Z]; indexing and slicing follow Python for negative and
      out-of-range positions.
    - A similarity score (a finite float) is a rational [Q].
    - An exception is a value of [exn]; a computation that may raise
      returns [exc A].
    - The Unicode character tables of the interpreter ([\d], [\w],
      [str.lower], [str.upper]) are not part of the repository: they are
      the fields of the class [UnicodeDB]. *)

From Stdlib Require Import List ZArith NArith QArith Bool String Ascii Lia.
From Stdlib Require Import Sorted Permutation.
Import ListNotations.

(* ================================================================== *)
(** * Python strings *)
(* ================================================================== *)

Module Py.

Definition char := N.
Definition str := list char.

(** An ASCII literal as a Python string. *)
Definition u (s : string) : str := map N_of_ascii (list_ascii_of_string s).

Definition len (s : str) : Z := Z.of_nat (List.length s).

Definition in_range (lo hi c : N) : bool := ((lo <=? c) && (c <=? hi))%N.

(** [Py_UNICODE_ISSPACE]: the characters [str.strip] removes and the
    regular expression class [\s] matches on [str] patterns. *)
Definition isspace (c : char) : bool :=
  in_range 0x09 0x0D c || in_range 0x1C 0x20 c
  || (c =? 0x85)%N || (c =? 0xA0)%N || (c =? 0x1680)%N
  || in_range 0x2000 0x200A c
  || (c =? 0x2028)%N || (c =? 0x2029)%N || (c =? 0x202F)%N
  || (c =? 0x205F)%N || (c =? 0x3000)%N.

Definition is_ascii (c : char) : bool := (c <? 128)%N.

Definition ascii_lower (c : char) : char :=
  if in_range 65 90 c then (c + 32)%N else c.

Definition ascii_upper (c : char) : char :=
  if in_range 97 122 c then (c - 32)%N else c.

(** The interpreter's Unicode tables.  On a string of ASCII characters
    only, [str.lower] is the ASCII lower-casing, whatever the version of
    the tables. *)
Class UnicodeDB := {
  isdecimal : char -> bool;          (* regular expression class \d *)
  isalnum : char -> bool;            (* \w is isalnum or underscore *)
  lower : str -> str;                (* str.lower *)
  upper : str -> str;                (* str.upper *)
  lower_ascii : forall s, forallb is_ascii s = true ->
                          lower s = map ascii_lower s
}.

(** The tables cut down to Basic Latin: a code point from 128 on is taken
    as caseless and as neither a digit nor a letter.  The closed examples
    of this file run on ASCII text, where this is what CPython does. *)
Definition basic_latin_isdecimal (c : char) : bool := in_range 48 57 c.
Definition basic_latin_isalnum (c : char) : bool :=
  in_range 48 57 c || in_range 65 90 c || in_range 97 122 c.

Definition basic_latin : UnicodeDB := {|
  isdecimal := basic_latin_isdecimal;
  isalnum := basic_latin_isalnum;
  lower := map ascii_lower;
  upper := map ascii_upper;
  lower_ascii := fun _ _ => eq_refl
|}.

Definition str_eqb (a b : str) : bool :=
  if list_eq_dec N.eq_dec a b then true else false.

Fixpoint is_prefix (p s : str) : bool :=
  match p, s with
  | [], _ => true
  | _ :: _, [] => false
  | a :: p', b :: s' => (a =? b)%N && is_prefix p' s'
  end.

(** [p in s] for two strings: [p] occurs in [s] as a substring. *)
Fixpoint is_infix (p s : str) : bool :=
  is_prefix p s ||
  match s with
  | [] => false
  | _ :: s' => is_infix p s'
  end.

(** [x in l] for a list of strings. *)
Definition mem (x : str) (l : list str) : bool := existsb (str_eqb x) l.

Fixpoint lstrip (s : str) : str :=
  match s with
  | c :: s' => if isspace c then lstrip s' else s
  | [] => []
  end.

Definition rstrip (s : str) : str := rev (lstrip (rev s)).

(** [s.strip()] *)
Definition strip (s : str) : str := rstrip (lstrip s).

(** [sep.join(l)] *)
Fixpoint join (sep : str) (l : list str) : str :=
  match l with
  | [] => []
  | [x] => x
  | x :: l' => x ++ sep ++ join sep l'
  end.

(** ** Exceptions *)

Inductive exn :=
| IndexError
| AttributeError
| Exception (msg : str).

(** [str(e)] *)
Definition exn_str (e : exn) : str :=
  match e with
  | IndexError => u "string index out of range"
  | AttributeError => u "'NoneType' object has no attribute 'get'"
  | Exception msg => msg
  end.

Inductive exc (A : Type) :=
| Ok (a : A)
| Raise (e : exn).
Arguments Ok {A} a.
Arguments Raise {A} e.

(** ** Indexing and slicing with Python's integers *)

(** [s[i]]: a negative index counts from the end; out of range raises. *)
Definition index {A} (s : list A) (i : Z) : exc A :=
  let n := Z.of_nat (List.length s) in
  let j := if (i <? 0)%Z then (i + n)%Z else i in
  if ((j <? 0) || (n <=? j))%Z then Raise IndexError
  else match nth_error s (Z.to_nat j) with
       | Some c => Ok c
       | None => Raise IndexError
       end.

(** A slice bound as Python adjusts it: a negative bound counts from the
    end, and the result is clamped to [0, len]. *)
Definition clamp (n i : Z) : Z :=
  let j := if (i <? 0)%Z then (i + n)%Z else i in
  Z.max 0 (Z.min n j).

(** [s[a:b]] *)
Definition slice {A} (s : list A) (a b : Z) : list A :=
  let n := Z.of_nat (List.length s) in
  let lo := clamp n a in
  let hi := clamp n b in
  firstn (Z.to_nat (hi - lo)) (skipn (Z.to_nat lo) s).

(** [s[:b]] *)
Definition slice_to {A} (s : list A) (b : Z) : list A := slice s 0 b.

End Py.

(* ================================================================== *)
(** * pdf_processor.py *)
(* ================================================================== *)

Module PdfProcessor.
Import Py.

(** ** Regular expressions, as far as [clean_text] uses them

    A pattern is a sequence of atoms; [+] and [*] are greedy, apply to a
    character class, and give characters back when the rest of the
    pattern fails, as the backtracking matcher of [re] does. *)

Inductive atom :=
| Lit (c : char)
| Cls (p : char -> bool)
| Plus (p : char -> bool)
| Star (p : char -> bool).

Definition regex := list atom.

Definition lits (s : str) : regex := map Lit s.

(** [star p k s]: take characters of class [p] from [s], the longest run
    first, until the continuation [k] matches what follows.  The result
    counts the characters consumed. *)
Fixpoint star (p : char -> bool) (k : str -> option nat) (s : str)
  : option nat :=
  match s with
  | c :: s' =>
      if p c then
        match star p k s' with
        | Some n => Some (S n)
        | None => k s
        end
      else k s
  | [] => k []
  end.

(** [rmatch r s]: [re.match] of [r] against [s]; the number of characters
    of the match. *)
Fixpoint rmatch (r : regex) (s : str) : option nat :=
  match r with
  | [] => Some O
  | Lit c :: r' =>
      match s with
      | x :: s' => if (x =? c)%N then option_map S (rmatch r' s') else None
      | [] => None
      end
  | Cls p :: r' =>
      match s with
      | x :: s' => if p x then option_map S (rmatch r' s') else None
      | [] => None
      end
  | Plus p :: r' =>
      match s with
      | x :: s' => if p x then option_map S (star p (rmatch r') s') else None
      | [] => None
      end
  | Star p :: r' => star p (rmatch r') s
  end.

(** [re.sub(r, repl, s)] for a pattern whose matches are never empty (the
    four patterns of [clean_text] start with a literal, a class or a [+]):
    scan from the left, replace the match found at the first position
    that has one, go on after it.  [skip] counts the characters of the
    current match still to drop. *)
Fixpoint sub_from (r : regex) (repl : str) (skip : nat) (s : str) : str :=
  match s with
  | [] => []
  | c :: s' =>
      match skip with
      | S k => sub_from r repl k s'
      | O =>
          match rmatch r s with
          | Some (S n) => repl ++ sub_from r repl n s'
          | _ => c :: sub_from r repl 0 s'
          end
      end
  end.

Definition sub (r : regex) (repl : str) (s : str) : str := sub_from r repl 0 s.

Definition is_terminator (c : char) : bool :=
  (c =? 46)%N || (c =? 33)%N || (c =? 63)%N.      (* c in '.!?' *)

(** The [for i in range(e, lo, -1)] of the chunker, [n] values of [i] from
    [i] downwards: the new [end] at the first sentence terminator, if
    any; [text[i]] may raise. *)
Fixpoint scan_back (text : str) (i : Z) (n : nat) : exc (option Z) :=
  match n with
  | O => Ok None
  | S n' =>
      match index text i with
      | Raise e => Raise e
      | Ok c => if is_terminator c then Ok (Some (i + 1)%Z)
                else scan_back text (i - 1)%Z n'
      end
  end.

Definition window := (Z * Z)%type.

(** The [while] loop of [split_text_into_chunks], from the values of
    [start] and [chunks] at the top of an iteration.  [None]: more than
    [fuel] iterations.  [wins] is a ghost variable: the ([start], [end])
    of every iteration so far. *)
Fixpoint chunk_loop (fuel : nat) (text : str) (chunk_size overlap : Z)
    (start : Z) (chunks : list str) (wins : list window)
  : option (exc (list str * list window)) :=
  if (start <? len text)%Z then
    match fuel with
    | O => None
    | S fuel' =>
        let end0 := (start + chunk_size)%Z in
        let found :=
          if (end0 <? len text)%Z then
            scan_back text end0
              (Z.to_nat (end0 - Z.max (start + chunk_size - 200) start))
          else Ok None in
        match found with
        | Raise e => Some (Raise e)
        | Ok brk =>
            let end_ := match brk with Some e => e | None => end0 end in
            let chunk := strip (slice text start end_) in
            let chunks' :=
              match chunk with [] => chunks | _ => chunks ++ [chunk] end in
            let wins' := wins ++ [(start, end_)] in
            let start' := (end_ - overlap)%Z in
            if (len text <=? start')%Z then Some (Ok (chunks', wins'))
            else chunk_loop fuel' text chunk_size overlap start' chunks' wins'
        end
    end
  else Some (Ok (chunks, wins)).

(** [split_text_into_chunks] with its ghost list of windows. *)
Definition split_trace (fuel : nat) (text : str) (chunk_size overlap : Z)
  : option (exc (list str * list window)) :=
  if (len text <=? chunk_size)%Z then Some (Ok ([text], []))
  else chunk_loop fuel text chunk_size overlap 0 [] [].

Definition split_text_into_chunks (fuel : nat) (text : str)
    (chunk_size overlap : Z) : option (exc (list str)) :=
  match split_trace fuel text chunk_size overlap with
  | Some (Ok (chunks, _)) => Some (Ok chunks)
  | Some (Raise e) => Some (Raise e)
  | None => None
  end.

Definition default_chunk_size : Z := 1000.
Definition default_overlap : Z := 200.

Section WithUnicode.
Context {db : UnicodeDB}.

(** [\w] *)
Definition isword (c : char) : bool := isalnum c || (c =? 95)%N.

(** The characters the last substitution of [clean_text] keeps. *)
Definition keep (c : char) : bool :=
  isword c || isspace c
  || in_range 0x0600 0x06FF c || in_range 0x0750 0x077F c
  || in_range 0x08A0 0x08FF c || in_range 0xFB50 0xFDFF c
  || in_range 0xFE70 0xFEFF c
  || existsb (N.eqb c) (u ".,!?;:()[]{}'-") || (c =? 34)%N.

Definition re_spaces : regex := [Plus isspace].
Definition re_page_of : regex :=
  lits (u "Page ") ++ [Plus isdecimal] ++ lits (u " of ") ++ [Plus isdecimal].
Definition re_n_of_m : regex :=
  [Plus isdecimal; Star isspace] ++ lits (u "of")
  ++ [Star isspace; Plus isdecimal].
Definition re_special : regex := [Cls (fun c => negb (keep c))].

Definition clean_text (text : str) : str :=
  let text := sub re_spaces (u " ") text in
  let text := sub re_page_of [] text in
  let text := sub re_n_of_m [] text in
  let text := sub re_special [] text in
  strip text.

Definition categorize_law (filename : str) : str :=
  let filename_lower := lower filename in
  if is_infix (u "civil") filename_lower then u "civil_law"
  else if is_infix (u "criminal") filename_lower then u "criminal_law"
  else if is_infix (u "labor") filename_lower then u "labor_law"
  else if is_infix (u "company") filename_lower then u "company_law"
  else if is_infix (u "traffic") filename_lower then u "traffic_law"
  else if is_infix (u "sharia") filename_lower then u "sharia_law"
  else if is_infix (u "board") filename_lower
          && is_infix (u "grievance") filename_lower
       then u "administrative_law"
  else if is_infix (u "basic") filename_lower
          && is_infix (u "governance") filename_lower
       then u "constitutional_law"
  else u "general_law".

End WithUnicode.

End PdfProcessor.

(* ================================================================== *)
(** * lawgpt_utils.py *)
(* ================================================================== *)

Module LawgptUtils.
Import Py.

(** ** Data *)

Definition vector := list Q.

(** A Python [dict] with string keys, in insertion order. *)
Definition dict (V : Type) := list (str * V).

Fixpoint lookup {V} (d : dict V) (key : str) : option V :=
  match d with
  | [] => None
  | (k, v) :: d' => if str_eqb k key then Some v else lookup d' key
  end.

(** [d.get(key, default)] *)
Definition get {V} (d : dict V) (key : str) (default : V) : V :=
  match lookup d key with
  | Some v => v
  | None => default
  end.

(** A hit of the vector store; the payload of a point is optional. *)
Record ScoredPoint := {
  payload : option (dict str);
  score : Q
}.

(** The dictionary [get_relevant_documents] builds for a hit. *)
Record Result := {
  r_id : str;
  r_text : str;
  r_source : str;
  r_law_type : str;
  r_filename : str;
  r_score : Q
}.

(** The three module-level clients, [None] when their construction
    failed.  [embedder] is [encode(query, normalize_embeddings=True)
    .tolist()], [qdrant_client] is [search(collection_name, query_vector,
    limit)], [openai_client] is the chat completion on a prompt, down to
    [response.choices[0].message.content]. *)
Record Clients := {
  embedder : option (str -> exc vector);
  qdrant_client : option (str -> vector -> Z -> exc (list ScoredPoint));
  openai_client : option (str -> exc str)
}.

Definition LAW_TYPE_MAPPING : dict (list str) :=
  [ (u "sharia", [u "sharia_law"; u "islamic_law"]);
    (u "labour", [u "labor_law"; u "employment_law"]);
    (u "regulatory", [u "administrative_law"; u "regulatory_law"; u "compliance"]);
    (u "hybrid", [u "all"]) ].

(** ** Statements that append to [all_results] and may raise

    The list keeps what was appended before an exception. *)

Definition M (A : Type) := list Result -> exc A * list Result.

Definition ret {A} (a : A) : M A := fun st => (Ok a, st).

Definition bind {A B} (m : M A) (f : A -> M B) : M B :=
  fun st =>
    match m st with
    | (Ok a, st') => f a st'
    | (Raise e, st') => (Raise e, st')
    end.

Notation "x <- m ;; k" := (bind m (fun x => k))
  (at level 61, m at next level, right associativity).

Definition lift {A} (r : exc A) : M A := fun st => (r, st).

Definition append (r : Result) : M unit := fun st => (Ok tt, st ++ [r]).

(** [try: m  except Exception: h] *)
Definition try_except {A} (m : M A) (h : exn -> M A) : M A :=
  fun st =>
    match m st with
    | (Ok a, st') => (Ok a, st')
    | (Raise e, st') => h e st'
    end.

Fixpoint for_each {A} (l : list A) (body : A -> M unit) : M unit :=
  match l with
  | [] => ret tt
  | x :: l' => _ <- body x ;; for_each l' body
  end.

(** [sort(key=lambda x: x['score'], reverse=True)]: stable, so of two
    results with the same score the one that came first stays first. *)
Definition Qlt_bool (a b : Q) : bool := negb (Qle_bool b a).

Fixpoint insert_desc (x : Result) (l : list Result) : list Result :=
  match l with
  | [] => [x]
  | y :: l' =>
      if Qlt_bool (r_score x) (r_score y) then y :: insert_desc x l'
      else x :: y :: l'
  end.

Definition sort_by_score_desc (l : list Result) : list Result :=
  fold_right insert_desc [] l.

Definition ARTICLES : str := u "ksa_legal_docs".
Definition CASES : str := u "ksa_cases".

(** The dictionary built from the payload and the score of a hit of
    [ksa_legal_docs]. *)
Definition article_dict (p : dict str) (s : Q) : Result :=
  {| r_id := get p (u "title") [];
     r_text := get p (u "text") [];
     r_source := get p (u "source") (u "unknown");
     r_law_type := get p (u "law_type") (u "general");
     r_filename := get p (u "filename") [];
     r_score := s |}.

(** The dictionary built from the payload and the score of a hit of
    [ksa_cases]. *)
Definition case_dict (p : dict str) (s : Q) : Result :=
  {| r_id := get p (u "title") [];
     r_text := get p (u "text") [];
     r_source := u "case";
     r_law_type := get p (u "law_type") (u "case_law");
     r_filename := get p (u "filename") [];
     r_score := s |}.

(** [r.payload.get] raises on a hit without payload. *)
Definition article_result (r : ScoredPoint) : exc Result :=
  match payload r with
  | None => Raise AttributeError
  | Some p => Ok (article_dict p (score r))
  end.

Definition case_result (r : ScoredPoint) : exc Result :=
  match payload r with
  | None => Raise AttributeError
  | Some p => Ok (case_dict p (score r))
  end.

Section WithUnicode.
Context {db : UnicodeDB}.

(** The test of the manual filter on the lower-cased [law_type] of a hit:
    the [if] and the [elif] both append. *)
Definition passes (law_filter : str) (allowed_law_types : list str)
    (law_type : str) : bool :=
  (str_eqb (lower law_filter) (u "hybrid") || mem (u "all") allowed_law_types)
  || existsb (fun allowed_type => is_infix allowed_type law_type)
       allowed_law_types.

Fixpoint filter_loop (law_filter : str) (allowed_law_types : list str)
    (pdf_results filtered_results : list ScoredPoint)
  : exc (list ScoredPoint) :=
  match pdf_results with
  | [] => Ok filtered_results
  | r :: rest =>
      match payload r with
      | None => Raise AttributeError
      | Some p =>
          let law_type := lower (get p (u "law_type") []) in
          filter_loop law_filter allowed_law_types rest
            (if passes law_filter allowed_law_types law_type
             then filtered_results ++ [r] else filtered_results)
      end
  end.

(** The [try] block on [ksa_legal_docs]. *)
Definition search_articles
    (search : str -> vector -> Z -> exc (list ScoredPoint))
    (query_embedding : vector) (top_k : Z) (law_filter : str)
    (allowed_law_types : list str) : M unit :=
  try_except
    (pdf_results <- lift (search ARTICLES query_embedding (top_k * 3)%Z) ;;
     filtered_results <-
       lift (filter_loop law_filter allowed_law_types pdf_results []) ;;
     _ <- for_each (slice_to filtered_results top_k)
            (fun r => d <- lift (article_result r) ;; append d) ;;
     for_each pdf_results
       (fun r => d <- lift (article_result r) ;; append d))
    (fun _ => ret tt).

(** The [try] block on [ksa_cases]. *)
Definition search_cases
    (search : str -> vector -> Z -> exc (list ScoredPoint))
    (query_embedding : vector) (top_k : Z) : M unit :=
  try_except
    (case_results <- lift (search CASES query_embedding top_k) ;;
     for_each case_results
       (fun r => d <- lift (case_result r) ;; append d))
    (fun _ => ret tt).

(** The body of the outer [try], from [all_results = []]. *)
Definition retrieve
    (encode : str -> exc vector)
    (search : str -> vector -> Z -> exc (list ScoredPoint))
    (query : str) (top_k : Z) (law_filter : str) : M (list Result) :=
  query_embedding <- lift (encode query) ;;
  let allowed_law_types :=
    get LAW_TYPE_MAPPING (lower law_filter) [u "all"] in
  _ <- search_articles search query_embedding top_k law_filter
         allowed_law_types ;;
  _ <- search_cases search query_embedding top_k ;;
  fun all_results =>
    let all_results := sort_by_score_desc all_results in
    (Ok (slice_to all_results top_k), all_results).

Definition get_relevant_documents (env : Clients) (query : str) (top_k : Z)
    (law_filter : str) : exc (list Result) :=
  match qdrant_client env with
  | None => Ok []
  | Some search =>
      match embedder env with
      | None => Ok []
      | Some encode =>
          match retrieve encode search query top_k law_filter [] with
          | (Ok results, _) => Ok results
          | (Raise _, _) => Ok []
          end
      end
  end.

Definition default_law_filter : str := u "hybrid".

Definition get_relevant_cases (env : Clients) (query : str) (top_k : Z)
  : exc (list Result) :=
  get_relevant_documents env query top_k default_law_filter.

(** ** The answer composer *)

Definition nl : str := [10%N].
Definition dq : str := [34%N].

Definition SERVICE_UNAVAILABLE : str :=
  u "Sorry, the AI service is currently unavailable. Please check your Azure OpenAI configuration.".

Definition CONTRACT_FALLBACK : str :=
  u "Based on KSA contract law, contracts must meet several requirements to be valid:"
  ++ nl ++ nl
  ++ u "1. **Offer and Acceptance**: Both parties must agree to the terms" ++ nl
  ++ u "2. **Capacity**: Parties must be legally capable of entering contracts" ++ nl
  ++ u "3. **Consideration**: There must be mutual benefit" ++ nl
  ++ u "4. **Legal Purpose**: The contract must be for lawful purposes" ++ nl
  ++ u "5. **Form**: Some contracts require specific forms (written, notarized, etc.)"
  ++ nl ++ nl
  ++ u "For specific legal advice, please consult with a qualified Saudi Arabian lawyer.".

Definition GENERIC_HEAD : str :=
  u "I'm currently unable to access the AI service to provide a detailed answer about "
  ++ dq.

Definition GENERIC_TAIL : str :=
  dq ++ u ". " ++ nl ++ nl
  ++ u "For accurate legal information about KSA law, I recommend:" ++ nl
  ++ u "- Consulting with a qualified Saudi Arabian lawyer" ++ nl
  ++ u "- Checking official government legal resources" ++ nl
  ++ u "- Contacting the Ministry of Justice" ++ nl ++ nl
  ++ u "Error details: ".

Definition case_block (c : Result) : str :=
  u "Case: " ++ r_id c ++ nl ++ r_text c.

Definition pdf_block (p : Result) : str :=
  u "Source: " ++ r_filename p ++ u " (" ++ r_law_type p ++ u ")" ++ nl
  ++ r_text p.

Definition build_context (law_filter : str) (relevant_docs : list Result)
  : str :=
  let cases :=
    filter (fun doc => str_eqb (r_source doc) (u "case")) relevant_docs in
  let pdfs :=
    filter (fun doc => str_eqb (r_source doc) (u "pdf")) relevant_docs in
  let filter_info := u "Search Filter: " ++ upper law_filter ++ u " Law" in
  let context_parts := [u "--- " ++ filter_info ++ u " ---"] in
  let context_parts :=
    match cases with
    | [] => context_parts
    | _ => context_parts ++
           [nl ++ nl ++ u "--- RELEVANT CASES ---" ++ nl
            ++ join (nl ++ nl) (map case_block cases)]
    end in
  let context_parts :=
    match pdfs with
    | [] => context_parts
    | _ => context_parts ++
           [nl ++ nl ++ u "--- RELEVANT LAW ARTICLES ---" ++ nl
            ++ join (nl ++ nl) (map pdf_block pdfs)]
    end in
  join nl context_parts.

Definition prompt_head (query law_filter : str) : str :=
  u "You are a legal assistant for KSA law, specializing in "
  ++ upper law_filter ++ u " law." ++ nl
  ++ u "A user asks: " ++ dq ++ query ++ dq ++ nl ++ nl.

Definition build_prompt (query law_filter : str)
    (relevant_docs : list Result) : str :=
  match relevant_docs with
  | _ :: _ =>
      prompt_head query law_filter
      ++ u "Here are relevant legal sources (filtered for "
      ++ upper law_filter ++ u " law):" ++ nl
      ++ build_context law_filter relevant_docs ++ nl ++ nl
      ++ u "Based on these sources, provide a comprehensive and accurate answer focused on "
      ++ upper law_filter
      ++ u " law. Reference specific cases and law articles where applicable. If the sources don't fully address the question, mention that and suggest consulting with a qualified legal professional."
      ++ nl
  | [] =>
      prompt_head query law_filter
      ++ u "Please provide a helpful and accurate answer based on general KSA "
      ++ upper law_filter
      ++ u " law knowledge. If you're unsure about specific details, please mention that and suggest consulting with a qualified legal professional."
      ++ nl
  end.

(** [ask_chatbot] after the prompt is built. *)
Definition generate (client : option (str -> exc str)) (query prompt : str)
  : exc str :=
  match client with
  | None => Ok SERVICE_UNAVAILABLE
  | Some create =>
      match create prompt with
      | Ok content => Ok content
      | Raise e =>
          if is_infix (u "contract") (lower query) then Ok CONTRACT_FALLBACK
          else Ok (GENERIC_HEAD ++ query ++ GENERIC_TAIL ++ exn_str e)
      end
  end.

Definition ask_chatbot (env : Clients) (query law_filter : str) : exc str :=
  match get_relevant_documents env query 5 law_filter with
  | Raise e => Raise e
  | Ok relevant_docs =>
      generate (openai_client env) query
        (build_prompt query law_filter relevant_docs)
  end.

End WithUnicode.

End LawgptUtils.


(* ================================================================== *)
(** * Properties of pdf_processor.py *)
(* ================================================================== *)

Module PdfProcessorProofs.
Import Py PdfProcessor.

(** ** The categorizer *)

(** The rule list as the specification words it: each rule asks for all
    of its keywords and gives a label; the first rule that applies
    decides. *)
Definition rule := (list str * str)%type.

Definition rules : list rule :=
  [ ([u "civil"], u "civil_law");
    ([u "criminal"], u "criminal_law");
    ([u "labor"], u "labor_law");
    ([u "company"], u "company_law");
    ([u "traffic"], u "traffic_law");
    ([u "sharia"], u "sharia_law");
    ([u "board"; u "grievance"], u "administrative_law");
    ([u "basic"; u "governance"], u "constitutional_law") ].

Fixpoint first_match (rs : list rule) (name : str) : str :=
  match rs with
  | [] => u "general_law"
  | (keywords, label) :: rs' =>
      if forallb (fun k => is_infix k name) keywords then label
      else first_match rs' name
  end.

Definition categorize_spec {db : UnicodeDB} (filename : str) : str :=
  first_match rules (lower filename).

Lemma categorize_law_refines {db : UnicodeDB} (filename : str) :
  categorize_law filename = categorize_spec filename.
Proof.
  unfold categorize_law, categorize_spec, rules, first_match, forallb.
  repeat rewrite andb_true_r.
  reflexivity.
Qed.

Lemma categorize_law_ascii {db : UnicodeDB} (filename : str) :
  forallb is_ascii filename = true ->
  categorize_law filename = first_match rules (map ascii_lower filename).
Proof.
  intros Hascii. rewrite categorize_law_refines.
  unfold categorize_spec. now rewrite lower_ascii.
Qed.

(** C9: [categorize_law] is the first-match evaluation of the ordered rule
    list on the lower-cased file name, an earlier rule winning over a later
    one when both apply, and it gives [labor_law], [constitutional_law] and
    [general_law] on the three file names of the specification. *)
Theorem categorize_law_ordered_rules (db : UnicodeDB) :
  (forall filename, categorize_law filename = first_match rules (lower filename))
  /\ categorize_law (u "KSA_Labor_Law_2020.pdf") = u "labor_law"
  /\ categorize_law (u "Basic_Law_of_Governance.pdf") = u "constitutional_law"
  /\ categorize_law (u "random_doc.pdf") = u "general_law"
  /\ categorize_law (u "Civil_and_Criminal_Procedure.pdf") = u "civil_law"
  /\ categorize_law (u "Sharia_Labor_Courts.pdf") = u "labor_law".
Proof.
  split; [exact categorize_law_refines|].
  repeat split; rewrite categorize_law_ascii; reflexivity.
Qed.

(** ** The chunker: configurations that never end *)

Definition stuck_text : str := u "abcdefghijk".
Definition stuck_text' : str := u "a.bcdefghijkl".

Lemma chunk_loop_stuck (fuel : nat) :
  forall chunks wins, chunk_loop fuel stuck_text 10 10 0 chunks wins = None.
Proof.
  induction fuel as [|fuel IH]; intros chunks wins.
  - reflexivity.
  - change (chunk_loop (S fuel) stuck_text 10 10 0 chunks wins)
      with (chunk_loop fuel stuck_text 10 10 0
              (chunks ++ [u "abcdefghij"]) (wins ++ [(0, 10)%Z])).
    apply IH.
Qed.

Lemma chunk_loop_stuck' (fuel : nat) :
  forall chunks wins, chunk_loop fuel stuck_text' 10 2 0 chunks wins = None.
Proof.
  induction fuel as [|fuel IH]; intros chunks wins.
  - reflexivity.
  - change (chunk_loop (S fuel) stuck_text' 10 2 0 chunks wins)
      with (chunk_loop fuel stuck_text' 10 2 0
              (chunks ++ [u "a."]) (wins ++ [(0, 2)%Z])).
    apply IH.
Qed.

(** C2: with [chunk_size = overlap = 10] and an 11-character text without
    a sentence terminator the loop never ends: every iteration leaves
    [start] at 0, and no number of iterations produces a result.  The
    same happens with [overlap = 2 < chunk_size = 10] when the only
    terminator of the search window is right after [start]. *)
Theorem split_text_into_chunks_diverges (fuel : nat) :
  split_text_into_chunks fuel stuck_text 10 10 = None
  /\ split_text_into_chunks fuel stuck_text' 10 2 = None.
Proof.
  unfold split_text_into_chunks, split_trace.
  change (len stuck_text <=? 10)%Z with false.
  change (len stuck_text' <=? 10)%Z with false. cbv iota.
  now rewrite chunk_loop_stuck, chunk_loop_stuck'.
Qed.

(** ** The chunker: windows of a configuration that makes progress *)

(** What one window contributes to [chunks]. *)
Definition emit (text : str) (w : window) : list str :=
  match strip (slice text (fst w) (snd w)) with
  | [] => []
  | chunk => [chunk]
  end.

Definition emitted (text : str) (ws : list window) : list str :=
  flat_map (emit text) ws.

(** The first window starts at [start], every further one [overlap]
    characters before the end of its predecessor, and strictly after the
    start of its predecessor. *)
Fixpoint chained (overlap start : Z) (ws : list window) : Prop :=
  match ws with
  | [] => True
  | (s, e) :: ws' =>
      s = start /\ (start < e - overlap)%Z /\ chained overlap (e - overlap) ws'
  end.

Definition covered (ws : list window) (p : Z) : Prop :=
  exists w, In w ws /\ (fst w <= p < snd w)%Z.


(** A configuration with which every iteration moves [start] forward,
    whatever the text. *)
Definition progressing (chunk_size overlap : Z) : Prop :=
  (0 <= overlap < chunk_size /\ overlap <= Z.max (chunk_size - 200) 0 + 1)%Z.

Lemma index_in_range (text : str) (i : Z) :
  (0 <= i < len text)%Z -> exists c, index text i = Ok c.
Proof.
  intros Hi. unfold index, len in *.
  destruct (Z.ltb_spec i 0); [lia|].
  destruct (Z.ltb_spec i 0); [lia|].
  destruct (Z.leb_spec (Z.of_nat (List.length text)) i); [lia|]. cbn.
  destruct (nth_error text (Z.to_nat i)) eqn:E; [eauto|].
  apply nth_error_None in E. lia.
Qed.

Lemma scan_back_in_range (text : str) (n : nat) :
  forall i, (0 <= i - Z.of_nat n + 1)%Z -> (i < len text)%Z ->
  exists r, scan_back text i n = Ok r /\
    match r with
    | Some e => (i - Z.of_nat n + 2 <= e <= i + 1)%Z
    | None => True
    end.
Proof.
  induction n as [|n IH]; intros i Hlo Hhi.
  - exists None. now split.
  - cbn [scan_back].
    destruct (index_in_range text i) as [c ->]; [lia|].
    destruct (is_terminator c).
    + exists (Some (i + 1)%Z). split; [reflexivity|lia].
    + destruct (IH (i - 1)%Z) as (r & -> & Hr); [lia|lia|].
      exists r. split; [reflexivity|]. destruct r; [lia|exact I].
Qed.

Section Progress.
Variables (text : str) (chunk_size overlap : Z).
Hypothesis Hconf : progressing chunk_size overlap.

Lemma chunk_loop_windows (fuel : nat) :
  forall start chunks wins,
  (0 <= start)%Z -> (len text - start <= Z.of_nat fuel)%Z ->
  exists ws,
    chunk_loop fuel text chunk_size overlap start chunks wins
      = Some (Ok (chunks ++ emitted text ws, wins ++ ws))
    /\ chained overlap start ws
    /\ (forall p, (start <= p < len text)%Z -> covered ws p).
Proof.
  destruct Hconf as [[Hov Hlt] Hbrk].
  induction fuel as [|fuel IH]; intros start chunks wins Hs Hfuel.
  - exists []. cbn [chunk_loop].
    destruct (Z.ltb_spec start (len text)); [lia|].
    rewrite !app_nil_r. repeat split. intros p Hp. lia.
  - cbn [chunk_loop].
    destruct (Z.ltb_spec start (len text)) as [Hin|Hout].
    2:{ exists []. rewrite !app_nil_r. repeat split. intros p Hp. lia. }
    set (end0 := (start + chunk_size)%Z).
    assert (Hfound : exists brk,
      (if (end0 <? len text)%Z
       then scan_back text end0
              (Z.to_nat (end0 - Z.max (end0 - 200) start))
       else Ok None) = Ok brk /\
      match brk with
      | Some e => (start + overlap < e)%Z
      | None => True
      end).
    { destruct (Z.ltb_spec end0 (len text)) as [Hend|Hend].
      - destruct (scan_back_in_range text
          (Z.to_nat (end0 - Z.max (end0 - 200) start)) end0)
          as (r & Hr & Hb); [unfold end0; lia|lia|].
        exists r. split; [exact Hr|]. destruct r; [|exact I].
        unfold end0 in *. lia.
      - exists None. now split. }
    destruct Hfound as (brk & -> & Hbrk').
    set (end_ := match brk with Some e => e | None => end0 end).
    assert (Hprog : (start + overlap < end_)%Z).
    { unfold end_. destruct brk; [exact Hbrk'|unfold end0; lia]. }
    set (w := (start, end_)).
    assert (Hemit : match strip (slice text start end_) with
                    | [] => chunks
                    | _ :: _ => chunks ++ [strip (slice text start end_)]
                    end = chunks ++ emit text w).
    { unfold emit, w. cbn [fst snd].
      destruct (strip (slice text start end_)); [now rewrite app_nil_r|reflexivity]. }
    rewrite Hemit.
    destruct (Z.leb_spec (len text) (end_ - overlap)) as [Hbreak|Hgo].
    + exists [w]. unfold emitted. cbn [flat_map]. rewrite app_nil_r.
      split; [reflexivity|]. split.
      * cbn. repeat split. lia.
      * intros p Hp. exists w. split; [now left|]. cbn. lia.
    + destruct (IH (end_ - overlap)%Z (chunks ++ emit text w) (wins ++ [w]))
        as (ws & Hrun & Hch & Hcov); [lia|lia|].
      exists (w :: ws). rewrite Hrun. unfold emitted. cbn [flat_map].
      rewrite <- !app_assoc. split; [reflexivity|]. split.
      * cbn. repeat split; [lia|exact Hch].
      * intros p Hp. destruct (Z.lt_ge_cases p (end_ - overlap)) as [Hl|Hr].
        -- exists w. split; [now left|]. cbn. lia.
        -- destruct (Hcov p) as (w' & Hw' & Hin'); [lia|].
           exists w'. split; [now right|exact Hin'].
Qed.

End Progress.


Definition sample_text : str :=
  List.concat (repeat (u "Labor contracts are binding. ") 90).


(** ** The normalizer *)

(** *** Matches survive an extension of the text *)

Lemma star_fallback (p : char -> bool) (k : str -> option nat) (t : str) (m : nat) :
  k t = Some m -> exists m', star p k t = Some m'.
Proof.
  intros Hk. destruct t as [|c t]; cbn; [eauto|].
  destruct (p c); [|eauto].
  destruct (star p k t); eauto.
Qed.

Lemma star_ext (p : char -> bool) (k k' : str -> option nat) (w : str) :
  (forall s n, k s = Some n -> exists m, k' (s ++ w) = Some m) ->
  forall s n, star p k s = Some n -> exists m, star p k' (s ++ w) = Some m.
Proof.
  intros Hk. induction s as [|c s IH]; intros n Hs.
  - cbn in Hs. destruct (Hk [] n Hs) as [m Hm].
    now apply star_fallback with m.
  - cbn in Hs |- *. destruct (p c).
    + destruct (star p k s) as [n0|] eqn:E.
      * destruct (IH n0 eq_refl) as [m ->]. eauto.
      * destruct (Hk (c :: s) n Hs) as [m Hm]. cbn in Hm.
        destruct (star p k' (s ++ w)); eauto.
    + exact (Hk (c :: s) n Hs).
Qed.

Lemma option_map_S_some (o : option nat) (n : nat) :
  option_map S o = Some n -> exists n0, o = Some n0.
Proof. destruct o; [eauto|discriminate]. Qed.

Lemma rmatch_ext (w : str) (r : regex) :
  forall s n, rmatch r s = Some n -> exists m, rmatch r (s ++ w) = Some m.
Proof.
  induction r as [|a r IH]; intros s n Hs; [cbn; eauto|].
  destruct a as [c|p|p|p]; cbn in Hs |- *.
  - destruct s as [|x s]; [discriminate|]. cbn.
    destruct (x =? c)%N; [|discriminate].
    apply option_map_S_some in Hs as [n0 Hs].
    destruct (IH s n0 Hs) as [m ->]. cbn. eauto.
  - destruct s as [|x s]; [discriminate|]. cbn.
    destruct (p x); [|discriminate].
    apply option_map_S_some in Hs as [n0 Hs].
    destruct (IH s n0 Hs) as [m ->]. cbn. eauto.
  - destruct s as [|x s]; [discriminate|]. cbn.
    destruct (p x); [|discriminate].
    apply option_map_S_some in Hs as [n0 Hs].
    destruct (star_ext p (rmatch r) (rmatch r) w IH s n0 Hs) as [m ->].
    cbn. eauto.
  - exact (star_ext p (rmatch r) (rmatch r) w IH s n Hs).
Qed.

(** *** Substitutions that delete, and the texts they leave alone *)

(** A pattern that starts with a literal, a class or a [+] consumes at
    least one character. *)
Definition strict (r : regex) : bool :=
  match r with
  | Lit _ :: _ | Cls _ :: _ | Plus _ :: _ => true
  | _ => false
  end.

Lemma rmatch_strict (r : regex) (s : str) :
  strict r = true -> rmatch r s <> Some O.
Proof.
  destruct r as [|[c|p|p|p] r]; try discriminate; intros _;
    destruct s as [|x s]; cbn; try discriminate.
  - destruct (x =? c)%N; [|discriminate]. now destruct (rmatch r s).
  - destruct (p x); [|discriminate]. now destruct (rmatch r s).
  - destruct (p x); [|discriminate]. now destruct (star p (rmatch r) s).
Qed.

(** No position of [s] starts a match of [r]. *)
Fixpoint no_match (r : regex) (s : str) : Prop :=
  match s with
  | [] => True
  | _ :: s' => rmatch r s = None /\ no_match r s'
  end.

Lemma sub_from_length (r : regex) (s : str) :
  forall k, (List.length (sub_from r [] k s) <= List.length s)%nat.
Proof.
  induction s as [|c s IH]; intros k; cbn [sub_from]; [reflexivity|].
  destruct k as [|k].
  - destruct (rmatch r (c :: s)) as [[|n]|]; cbn [app List.length].
    + specialize (IH O). lia.
    + specialize (IH n). lia.
    + specialize (IH O). lia.
  - specialize (IH k). cbn [List.length]. lia.
Qed.

Lemma sub_fixed_no_match (r : regex) (s : str) :
  strict r = true -> sub r [] s = s -> no_match r s.
Proof.
  intros Hr. unfold sub. induction s as [|c s IH]; intros Hfix; [exact I|].
  cbn [sub_from] in Hfix. cbn [no_match].
  destruct (rmatch r (c :: s)) as [[|n]|] eqn:E.
  - now apply rmatch_strict in E.
  - cbn [app] in Hfix. pose proof (sub_from_length r s n) as Hlen.
    rewrite Hfix in Hlen. cbn in Hlen. lia.
  - split; [reflexivity|]. apply IH. congruence.
Qed.

Lemma no_match_sub_fixed (r : regex) (s : str) :
  no_match r s -> sub r [] s = s.
Proof.
  unfold sub. induction s as [|c s IH]; intros Hno; [reflexivity|].
  destruct Hno as [Hc Hs]. cbn [sub_from]. rewrite Hc. now rewrite IH.
Qed.

Lemma no_match_app_l (r : regex) (w s : str) :
  no_match r (w ++ s) -> no_match r s.
Proof. induction w as [|c w IH]; [trivial|]. intros [_ H]. now apply IH. Qed.

Lemma no_match_app_r (r : regex) (s w : str) :
  no_match r (s ++ w) -> no_match r s.
Proof.
  induction s as [|c s IH]; [intros; exact I|]. intros [Hc Hs].
  split; [|now apply IH].
  destruct (rmatch r (c :: s)) as [n|] eqn:E; [|reflexivity].
  destruct (rmatch_ext w r (c :: s) n E) as [m Hm].
  cbn [app] in Hm. congruence.
Qed.

(** *** Stripping *)

Lemma lstrip_split (s : str) :
  exists w, s = w ++ lstrip s /\ forallb isspace w = true.
Proof.
  induction s as [|c s (w & Hw & Hsp)]; [now exists []|].
  cbn [lstrip]. destruct (isspace c) eqn:E.
  - exists (c :: w). cbn. rewrite E, Hsp. split; [now f_equal|reflexivity].
  - now exists [].
Qed.

Lemma rstrip_split (s : str) :
  exists w, s = rstrip s ++ w /\ forallb isspace w = true.
Proof.
  unfold rstrip. destruct (lstrip_split (rev s)) as (w & Hw & Hsp).
  exists (rev w). split.
  - rewrite <- rev_app_distr, <- Hw. now rewrite rev_involutive.
  - rewrite forallb_forall in *. intros x Hx. apply Hsp. now apply in_rev.
Qed.

Lemma lstrip_fixed_iff (s : str) :
  lstrip s = s <-> match s with [] => True | c :: _ => isspace c = false end.
Proof.
  destruct s as [|c s]; [easy|]. cbn [lstrip].
  destruct (isspace c) eqn:E; [|easy]. split; [|discriminate].
  intros H. destruct (lstrip_split s) as (w & Hw & _).
  apply (f_equal (@List.length _)) in H, Hw.
  rewrite length_app in Hw. cbn in H. lia.
Qed.

Lemma lstrip_idem (s : str) : lstrip (lstrip s) = lstrip s.
Proof.
  induction s as [|c s IH]; [reflexivity|]. cbn [lstrip].
  destruct (isspace c) eqn:E; [exact IH|]. cbn [lstrip]. now rewrite E.
Qed.

Lemma lstrip_rstrip (s : str) : lstrip s = s -> lstrip (rstrip s) = rstrip s.
Proof.
  intros Hs. apply lstrip_fixed_iff. apply lstrip_fixed_iff in Hs.
  destruct (rstrip_split s) as (w & Hw & _).
  destruct (rstrip s) as [|c t]; [exact I|].
  rewrite Hw in Hs. exact Hs.
Qed.

Lemma strip_idem (s : str) : strip (strip s) = strip s.
Proof.
  unfold strip. rewrite (lstrip_rstrip (lstrip s) (lstrip_idem s)).
  unfold rstrip. now rewrite rev_involutive, lstrip_idem.
Qed.

Lemma strip_split (s : str) : exists w1 w2, s = w1 ++ strip s ++ w2.
Proof.
  destruct (lstrip_split s) as (w1 & H1 & _).
  destruct (rstrip_split (lstrip s)) as (w2 & H2 & _).
  exists w1, w2. unfold strip. now rewrite <- H2.
Qed.

Lemma sub_strip_fixed (r : regex) (s : str) :
  strict r = true -> sub r [] s = s -> sub r [] (strip s) = strip s.
Proof.
  intros Hr Hfix. apply no_match_sub_fixed.
  apply sub_fixed_no_match in Hfix; [|exact Hr].
  destruct (strip_split s) as (w1 & w2 & Hs). rewrite Hs in Hfix.
  apply no_match_app_l in Hfix. now apply no_match_app_r in Hfix.
Qed.

(** *** Collapsing runs of whitespace *)

(** [sub re_spaces " "] as one pass with a flag: [in_ws] says that the
    previous character was whitespace. *)
Fixpoint squeeze (in_ws : bool) (s : str) : str :=
  match s with
  | [] => []
  | c :: s' =>
      if isspace c then
        if in_ws then squeeze true s' else 32%N :: squeeze true s'
      else c :: squeeze false s'
  end.

(** Length of the run of whitespace [s] starts with. *)
Fixpoint run (s : str) : nat :=
  match s with
  | c :: s' => if isspace c then S (run s') else O
  | [] => O
  end.

(** Every whitespace character is a space and follows a character that is
    not whitespace ([prev_ws]: the character before [s] was whitespace). *)
Fixpoint collapsed (prev_ws : bool) (s : str) : bool :=
  match s with
  | [] => true
  | c :: s' =>
      if isspace c then (c =? 32)%N && negb prev_ws && collapsed true s'
      else collapsed false s'
  end.

Lemma star_space_run (s : str) : star isspace (rmatch []) s = Some (run s).
Proof.
  induction s as [|c s IH]; [reflexivity|]. cbn [star run].
  destruct (isspace c); [now rewrite IH|reflexivity].
Qed.

Lemma rmatch_spaces (c : char) (s : str) :
  rmatch re_spaces (c :: s) = if isspace c then Some (S (run s)) else None.
Proof.
  unfold re_spaces. cbn [rmatch].
  destruct (isspace c); [now rewrite star_space_run|reflexivity].
Qed.

Lemma sub_spaces_squeeze (s : str) :
  sub_from re_spaces (u " ") 0 s = squeeze false s
  /\ sub_from re_spaces (u " ") (run s) s = squeeze true s.
Proof.
  induction s as [|c s [IH0 IHrun]]; [now split|]. split.
  - cbn [sub_from squeeze]. rewrite rmatch_spaces. destruct (isspace c).
    + now rewrite IHrun.
    + now rewrite IH0.
  - cbn [run squeeze]. destruct (isspace c) eqn:E; cbn [sub_from].
    + exact IHrun.
    + rewrite rmatch_spaces, E. now rewrite IH0.
Qed.

Lemma squeeze_collapsed (s : str) :
  forall b, collapsed b (squeeze b s) = true.
Proof.
  induction s as [|c s IH]; intros b; [reflexivity|]. cbn [squeeze].
  destruct (isspace c) eqn:E.
  - destruct b; [apply IH|]. cbn [collapsed].
    change (isspace 32%N) with true. cbv iota. now rewrite IH.
  - cbn [collapsed]. rewrite E. apply IH.
Qed.

Lemma collapsed_squeeze (s : str) :
  forall b, collapsed b s = true -> squeeze b s = s.
Proof.
  induction s as [|c s IH]; intros b H; [reflexivity|].
  cbn [collapsed] in H. cbn [squeeze]. destruct (isspace c).
  - apply andb_prop in H as [H Hs]. apply andb_prop in H as [Hc Hb].
    apply N.eqb_eq in Hc. destruct b; [discriminate|].
    now rewrite IH, Hc.
  - now rewrite IH.
Qed.

Lemma collapsed_weaken (s : str) :
  forall b, collapsed b s = true -> collapsed false s = true.
Proof.
  destruct s as [|c s]; intros b H; [reflexivity|]. cbn [collapsed] in *.
  destruct (isspace c); [|exact H].
  apply andb_prop in H as [H Hs]. apply andb_prop in H as [Hc _].
  now rewrite Hc, Hs.
Qed.

Lemma collapsed_app_l (w s : str) :
  forall b, collapsed b (w ++ s) = true -> collapsed false s = true.
Proof.
  induction w as [|c w IH]; intros b H; [now apply collapsed_weaken with b|].
  cbn [app collapsed] in H. destruct (isspace c).
  - apply andb_prop in H as [_ H]. now apply IH with true.
  - now apply IH with false.
Qed.

Lemma collapsed_app_r (s w : str) :
  forall b, collapsed b (s ++ w) = true -> collapsed b s = true.
Proof.
  induction s as [|c s IH]; intros b H; [reflexivity|].
  cbn [app collapsed] in *. destruct (isspace c).
  - apply andb_prop in H as [H Hs]. rewrite H. now apply IH.
  - now apply IH.
Qed.

Lemma collapsed_strip (s : str) :
  collapsed false s = true -> collapsed false (strip s) = true.
Proof.
  intros H. destruct (strip_split s) as (w1 & w2 & Hs). rewrite Hs in H.
  apply collapsed_app_l in H. now apply collapsed_app_r in H.
Qed.

Lemma sub_spaces_strip (x : str) :
  sub re_spaces (u " ") (strip (sub re_spaces (u " ") x))
  = strip (sub re_spaces (u " ") x).
Proof.
  unfold sub.
  rewrite (proj1 (sub_spaces_squeeze x)).
  rewrite (proj1 (sub_spaces_squeeze _)).
  apply collapsed_squeeze, collapsed_strip, squeeze_collapsed.
Qed.

(** A deletion can also bring a new "N of M" together. *)
Example clean_text_cascade :
  clean_text (db := basic_latin) (u "1 1 of 2 of 3") = u "1  of 3"
  /\ clean_text (db := basic_latin) (u "1  of 3") = [].
Proof. split; vm_compute; reflexivity. Qed.

(** And it can do so without leaving two spaces. *)
Example clean_text_late_marker :
  clean_text (db := basic_latin) (u "1@ of 2") = u "1 of 2"
  /\ clean_text (db := basic_latin) (u "1 of 2") = [].
Proof. split; vm_compute; reflexivity. Qed.


End PdfProcessorProofs.

(* ================================================================== *)
(** * Properties of lawgpt_utils.py *)
(* ================================================================== *)

Module LawgptUtilsProofs.
Import Py LawgptUtils.

(** ** Slices and the sort *)

Lemma clamp_zero (n : Z) : (0 <= n)%Z -> clamp n 0 = 0%Z.
Proof. intros Hn. unfold clamp. cbn. lia. Qed.

Lemma slice_to_firstn {A} (l : list A) (k : Z) :
  slice_to l k = firstn (Z.to_nat (clamp (Z.of_nat (List.length l)) k)) l.
Proof.
  unfold slice_to, slice. rewrite clamp_zero by lia.
  now rewrite Z.sub_0_r.
Qed.


Lemma slice_to_nil {A} (k : Z) : slice_to (@nil A) k = [].
Proof. rewrite slice_to_firstn. apply firstn_nil. Qed.

(** [a] may stand before [b] in a list sorted by descending score. *)
Definition by_score_desc (a b : Result) : Prop := (r_score b <= r_score a)%Q.

Lemma insert_desc_In (x z : Result) (l : list Result) :
  In z (insert_desc x l) -> z = x \/ In z l.
Proof.
  induction l as [|y l IH]; cbn.
  - intros [H|[]]. now left.
  - destruct (Qlt_bool (r_score x) (r_score y)); cbn.
    + intros [H|H]; [now right; left|]. destruct (IH H); auto.
    + intros [H|H]; auto.
Qed.

Lemma Qlt_bool_true (a b : Q) : Qlt_bool a b = true -> (a <= b)%Q.
Proof.
  unfold Qlt_bool. intros H. apply negb_true_iff in H.
  destruct (Qlt_le_dec a b) as [Hlt|Hle]; [now apply Qlt_le_weak|].
  apply Qle_bool_iff in Hle. congruence.
Qed.

Lemma Qlt_bool_false (a b : Q) : Qlt_bool a b = false -> (b <= a)%Q.
Proof.
  unfold Qlt_bool. intros H. apply negb_false_iff in H.
  now apply Qle_bool_iff.
Qed.

Lemma insert_desc_sorted (x : Result) (l : list Result) :
  StronglySorted by_score_desc l ->
  StronglySorted by_score_desc (insert_desc x l).
Proof.
  induction 1 as [|y l Hs IH Hy]; cbn.
  - repeat constructor.
  - destruct (Qlt_bool (r_score x) (r_score y)) eqn:E.
    + constructor; [exact IH|]. apply Forall_forall. intros z Hz.
      apply insert_desc_In in Hz as [->|Hz].
      * now apply Qlt_bool_true.
      * rewrite Forall_forall in Hy. now apply Hy.
    + apply Qlt_bool_false in E. constructor.
      * now constructor.
      * constructor; [exact E|]. apply Forall_forall. intros z Hz.
        rewrite Forall_forall in Hy. unfold by_score_desc in *.
        apply Qle_trans with (r_score y); [now apply Hy|exact E].
Qed.

Lemma sort_by_score_desc_sorted (l : list Result) :
  StronglySorted by_score_desc (sort_by_score_desc l).
Proof.
  induction l as [|x l IH]; [constructor|].
  cbn. now apply insert_desc_sorted.
Qed.





Section Retrieval.
Context {db : UnicodeDB}.

(** What [all_results] holds when it is sorted: the hits of the article
    block, then those of the case block. *)
Definition merged
    (search : str -> vector -> Z -> exc (list ScoredPoint))
    (query_embedding : vector) (top_k : Z) (law_filter : str)
  : list Result :=
  snd (search_cases search query_embedding top_k
         (snd (search_articles search query_embedding top_k law_filter
                 (get LAW_TYPE_MAPPING (lower law_filter) [u "all"]) []))).

Lemma try_except_pass (m : M unit) (st : list Result) :
  fst (try_except m (fun _ => ret tt) st) = Ok tt.
Proof.
  unfold try_except, ret. destruct (m st) as [[[]|e] st']; reflexivity.
Qed.

Lemma retrieve_run (encode : str -> exc vector)
    (search : str -> vector -> Z -> exc (list ScoredPoint))
    (query : str) (top_k : Z) (law_filter : str) :
  fst (retrieve encode search query top_k law_filter []) =
  match encode query with
  | Ok query_embedding =>
      Ok (slice_to
            (sort_by_score_desc (merged search query_embedding top_k law_filter))
            top_k)
  | Raise e => Raise e
  end.
Proof.
  unfold retrieve, merged, bind, lift.
  destruct (encode query) as [qe|e]; [|reflexivity].
  pose proof (try_except_pass
    (pdf_results <- lift (search ARTICLES qe (top_k * 3)%Z) ;;
     filtered_results <-
       lift (filter_loop law_filter
               (get LAW_TYPE_MAPPING (lower law_filter) [u "all"])
               pdf_results []) ;;
     _ <- for_each (slice_to filtered_results top_k)
            (fun r => d <- lift (article_result r) ;; append d) ;;
     for_each pdf_results
       (fun r => d <- lift (article_result r) ;; append d)) []) as Ha.
  fold (search_articles search qe top_k law_filter
          (get LAW_TYPE_MAPPING (lower law_filter) [u "all"])) in Ha.
  destruct (search_articles search qe top_k law_filter
              (get LAW_TYPE_MAPPING (lower law_filter) [u "all"]) [])
    as [ra sta]. cbn [fst snd] in *. subst ra.
  pose proof (try_except_pass
    (case_results <- lift (search CASES qe top_k) ;;
     for_each case_results
       (fun r => d <- lift (case_result r) ;; append d)) sta) as Hc.
  fold (search_cases search qe top_k) in Hc.
  destruct (search_cases search qe top_k sta) as [rc stc].
  cbn [fst snd] in *. now subst rc.
Qed.

(** The outcomes of [get_relevant_documents]. *)
Lemma get_relevant_documents_run (env : Clients) (query : str) (top_k : Z)
    (law_filter : str) :
  get_relevant_documents env query top_k law_filter =
  match qdrant_client env, embedder env with
  | Some search, Some encode =>
      match encode query with
      | Ok query_embedding =>
          Ok (slice_to
                (sort_by_score_desc
                   (merged search query_embedding top_k law_filter))
                top_k)
      | Raise _ => Ok []
      end
  | _, _ => Ok []
  end.
Proof.
  unfold get_relevant_documents.
  destruct (qdrant_client env) as [search|]; [|reflexivity].
  destruct (embedder env) as [encode|]; [|reflexivity].
  pose proof (retrieve_run encode search query top_k law_filter) as H.
  destruct (retrieve encode search query top_k law_filter []) as [r st].
  cbn [fst] in H. subst r. now destruct (encode query).
Qed.

Lemma get_relevant_documents_returns (env : Clients) (query : str)
    (top_k : Z) (law_filter : str) :
  exists results, exists all_results,
    get_relevant_documents env query top_k law_filter = Ok results
    /\ results = slice_to (sort_by_score_desc all_results) top_k.
Proof.
  rewrite get_relevant_documents_run.
  destruct (qdrant_client env) as [search|];
    [|exists [], []; split; [reflexivity|symmetry; apply (slice_to_nil top_k)]].
  destruct (embedder env) as [encode|];
    [|exists [], []; split; [reflexivity|symmetry; apply (slice_to_nil top_k)]].
  destruct (encode query) as [qe|e];
    [|exists [], []; split; [reflexivity|symmetry; apply (slice_to_nil top_k)]].
  eauto.
Qed.

(** ** What the two blocks append when every hit has a payload *)

Definition hit (h : dict str * Q) : ScoredPoint :=
  {| payload := Some (fst h); score := snd h |}.

(** The hit passes the manual filter. *)
Definition kept (law_filter : str) (h : dict str * Q) : bool :=
  passes law_filter (get LAW_TYPE_MAPPING (lower law_filter) [u "all"])
    (lower (get (fst h) (u "law_type") [])).

Lemma slice_to_map {A B} (f : A -> B) (l : list A) (k : Z) :
  slice_to (map f l) k = map f (slice_to l k).
Proof. rewrite !slice_to_firstn, length_map. apply firstn_map. Qed.

Lemma filter_loop_hits (law_filter : str) (hits : list (dict str * Q)) :
  forall filtered,
  filter_loop law_filter (get LAW_TYPE_MAPPING (lower law_filter) [u "all"])
    (map hit hits) filtered
  = Ok (filtered ++ map hit (filter (kept law_filter) hits)).
Proof.
  induction hits as [|h hits IH]; intros filtered.
  - cbn. now rewrite app_nil_r.
  - cbn [map filter_loop hit payload filter]. rewrite IH.
    change (passes law_filter
              (get LAW_TYPE_MAPPING (lower law_filter) [u "all"])
              (lower (get (fst h) (u "law_type") [])))
      with (kept law_filter h).
    destruct (kept law_filter h); [|reflexivity].
    cbn [map]. now rewrite <- app_assoc.
Qed.

Lemma for_each_hits (mk : dict str -> Q -> Result)
    (mkres : ScoredPoint -> exc Result) (hits : list (dict str * Q)) :
  (forall h, mkres (hit h) = Ok (mk (fst h) (snd h))) ->
  forall st,
  for_each (map hit hits) (fun r => d <- lift (mkres r) ;; append d) st
  = (Ok tt, st ++ map (fun h => mk (fst h) (snd h)) hits).
Proof.
  intros Hmk. induction hits as [|h hits IH]; intros st; cbn.
  - unfold ret. now rewrite app_nil_r.
  - unfold bind at 1 2. unfold lift at 1. rewrite Hmk. unfold append at 1.
    rewrite IH. now rewrite <- app_assoc.
Qed.

(** The article block appends the first [top_k] hits that pass the
    filter, and then every hit once more, filter or not. *)
Lemma search_articles_hits
    (search : str -> vector -> Z -> exc (list ScoredPoint))
    (qe : vector) (top_k : Z) (law_filter : str)
    (hits : list (dict str * Q)) (st : list Result) :
  search ARTICLES qe (top_k * 3)%Z = Ok (map hit hits) ->
  search_articles search qe top_k law_filter
    (get LAW_TYPE_MAPPING (lower law_filter) [u "all"]) st
  = (Ok tt,
     st ++ map (fun h => article_dict (fst h) (snd h))
             (slice_to (filter (kept law_filter) hits) top_k)
        ++ map (fun h => article_dict (fst h) (snd h)) hits).
Proof.
  intros Hsearch. unfold search_articles, try_except.
  unfold bind at 1. unfold lift at 1. rewrite Hsearch.
  unfold bind at 1. unfold lift at 1. rewrite filter_loop_hits. cbn [app].
  unfold bind at 1. rewrite slice_to_map.
  rewrite (for_each_hits article_dict article_result) by reflexivity.
  rewrite (for_each_hits article_dict article_result) by reflexivity.
  now rewrite <- app_assoc.
Qed.

Lemma search_articles_raises
    (search : str -> vector -> Z -> exc (list ScoredPoint))
    (qe : vector) (top_k : Z) (law_filter : str) (allowed : list str)
    (e : exn) (st : list Result) :
  search ARTICLES qe (top_k * 3)%Z = Raise e ->
  search_articles search qe top_k law_filter allowed st = (Ok tt, st).
Proof.
  intros Hsearch. unfold search_articles, try_except.
  unfold bind at 1. unfold lift at 1. now rewrite Hsearch.
Qed.

Lemma search_cases_hits
    (search : str -> vector -> Z -> exc (list ScoredPoint))
    (qe : vector) (top_k : Z) (hits : list (dict str * Q))
    (st : list Result) :
  search CASES qe top_k = Ok (map hit hits) ->
  search_cases search qe top_k st
  = (Ok tt, st ++ map (fun h => case_dict (fst h) (snd h)) hits).
Proof.
  intros Hsearch. unfold search_cases, try_except.
  unfold bind at 1. unfold lift at 1. rewrite Hsearch.
  now rewrite (for_each_hits case_dict case_result) by reflexivity.
Qed.

Lemma search_cases_raises
    (search : str -> vector -> Z -> exc (list ScoredPoint))
    (qe : vector) (top_k : Z) (e : exn) (st : list Result) :
  search CASES qe top_k = Raise e ->
  search_cases search qe top_k st = (Ok tt, st).
Proof.
  intros Hsearch. unfold search_cases, try_except.
  unfold bind at 1. unfold lift at 1. now rewrite Hsearch.
Qed.

(** ** The ranked result *)




(** ** Failures of the clients *)

(** The store [search], except that a failed search of [collection] gives
    no hit instead. *)
Definition failure_as_empty (collection : str)
    (search : str -> vector -> Z -> exc (list ScoredPoint))
  : str -> vector -> Z -> exc (list ScoredPoint) :=
  fun c v limit =>
    if str_eqb c collection then
      match search c v limit with
      | Raise _ => Ok []
      | hits => hits
      end
    else search c v limit.

Lemma search_articles_failure (collection : str)
    (search : str -> vector -> Z -> exc (list ScoredPoint))
    (qe : vector) (top_k : Z) (law_filter : str) (allowed : list str)
    (st : list Result) :
  search_articles (failure_as_empty collection search) qe top_k law_filter
    allowed st
  = search_articles search qe top_k law_filter allowed st.
Proof.
  unfold search_articles, try_except, bind, lift, failure_as_empty.
  destruct (str_eqb ARTICLES collection); [|reflexivity].
  destruct (search ARTICLES qe (top_k * 3)%Z) as [hits|e]; [reflexivity|].
  cbn [filter_loop]. now rewrite slice_to_nil.
Qed.

Lemma search_cases_failure (collection : str)
    (search : str -> vector -> Z -> exc (list ScoredPoint))
    (qe : vector) (top_k : Z) (st : list Result) :
  search_cases (failure_as_empty collection search) qe top_k st
  = search_cases search qe top_k st.
Proof.
  unfold search_cases, try_except, bind, lift, failure_as_empty.
  destruct (str_eqb CASES collection); [|reflexivity].
  now destruct (search CASES qe top_k) as [hits|e].
Qed.

(** C8: [get_relevant_documents] always returns a list; without the
    vector store or without the embedder the list is empty; a failed
    search of one collection changes nothing compared with a search of
    that collection that finds no hit; so when the article search fails
    the sorted case results are returned, and when the case search fails
    the sorted results of the article block are. *)
Theorem get_relevant_documents_never_raises :
  (forall env query top_k law_filter,
     exists results,
       get_relevant_documents env query top_k law_filter = Ok results)
  /\ (forall e o query top_k law_filter,
        get_relevant_documents
          {| embedder := e; qdrant_client := None; openai_client := o |}
          query top_k law_filter = Ok [])
  /\ (forall s o query top_k law_filter,
        get_relevant_documents
          {| embedder := None; qdrant_client := s; openai_client := o |}
          query top_k law_filter = Ok [])
  /\ (forall collection encode search o query top_k law_filter,
        get_relevant_documents
          {| embedder := Some encode; qdrant_client := Some search;
             openai_client := o |} query top_k law_filter
        = get_relevant_documents
            {| embedder := Some encode;
               qdrant_client := Some (failure_as_empty collection search);
               openai_client := o |} query top_k law_filter)
  /\ (forall encode search o query top_k law_filter qe e hits,
        encode query = Ok qe ->
        search ARTICLES qe (top_k * 3)%Z = Raise e ->
        search CASES qe top_k = Ok (map hit hits) ->
        get_relevant_documents
          {| embedder := Some encode; qdrant_client := Some search;
             openai_client := o |} query top_k law_filter
        = Ok (slice_to
                (sort_by_score_desc
                   (map (fun h => case_dict (fst h) (snd h)) hits))
                top_k))
  /\ (forall encode search o query top_k law_filter qe e hits,
        encode query = Ok qe ->
        search ARTICLES qe (top_k * 3)%Z = Ok (map hit hits) ->
        search CASES qe top_k = Raise e ->
        get_relevant_documents
          {| embedder := Some encode; qdrant_client := Some search;
             openai_client := o |} query top_k law_filter
        = Ok (slice_to
                (sort_by_score_desc
                   (map (fun h => article_dict (fst h) (snd h))
                      (slice_to (filter (kept law_filter) hits) top_k)
                    ++ map (fun h => article_dict (fst h) (snd h)) hits))
                top_k)).
Proof.
  split; [|split; [|split; [|split; [|split]]]].
  - intros env query top_k law_filter.
    destruct (get_relevant_documents_returns env query top_k law_filter)
      as (results & _ & Hrun & _). eauto.
  - reflexivity.
  - intros s o query top_k law_filter. unfold get_relevant_documents. cbn.
    now destruct s.
  - intros collection encode search o query top_k law_filter.
    rewrite !get_relevant_documents_run. cbn.
    destruct (encode query) as [qe|e]; [|reflexivity].
    unfold merged.
    now rewrite search_articles_failure, search_cases_failure.
  - intros encode search o query top_k law_filter qe e hits Hq Ha Hc.
    rewrite get_relevant_documents_run. cbn. rewrite Hq. unfold merged.
    rewrite (search_articles_raises _ _ _ _ _ e) by exact Ha.
    now rewrite (search_cases_hits _ _ _ hits) by exact Hc.
  - intros encode search o query top_k law_filter qe e hits Hq Ha Hc.
    rewrite get_relevant_documents_run. cbn. rewrite Hq. unfold merged.
    rewrite (search_articles_hits _ _ _ _ hits) by exact Ha. cbn [snd app].
    now rewrite (search_cases_raises _ _ _ e) by exact Hc.
Qed.

(** C10: the legacy entry point is [get_relevant_documents] with the
    filter ["hybrid"]. *)
Theorem get_relevant_cases_is_hybrid (env : Clients) (query : str)
    (top_k : Z) :
  get_relevant_cases env query top_k
  = get_relevant_documents env query top_k (u "hybrid").
Proof. reflexivity. Qed.

End Retrieval.

(** ** A store with one labour article, one sharia article and one case *)

Definition labor_hit : ScoredPoint :=
  {| payload := Some [ (u "title", u "Labor_Law");
                       (u "text", u "Working hours shall not exceed eight hours a day.");
                       (u "source", u "pdf");
                       (u "law_type", u "labor_law");
                       (u "filename", u "Labor_Law.pdf") ];
     score := 0.9 |}.

Definition sharia_hit : ScoredPoint :=
  {| payload := Some [ (u "title", u "Sharia_Courts");
                       (u "text", u "Courts apply the rules of the Sharia.");
                       (u "source", u "pdf");
                       (u "law_type", u "sharia_law");
                       (u "filename", u "Sharia_Courts.pdf") ];
     score := 0.8 |}.

Definition case_hit : ScoredPoint :=
  {| payload := Some [ (u "title", u "Case 12");
                       (u "text", u "The court upheld the dismissal.") ];
     score := 0.5 |}.

Definition sample_search (collection : str) (v : vector) (limit : Z)
  : exc (list ScoredPoint) :=
  if str_eqb collection ARTICLES then Ok [labor_hit; sharia_hit]
  else if str_eqb collection CASES then Ok [case_hit]
  else Raise (Exception (u "Not found: Collection doesn't exist")).

Definition sample_env : Clients :=
  {| embedder := Some (fun _ => Ok [1; 0]);
     qdrant_client := Some sample_search;
     openai_client := None |}.

Definition labor_result : Result :=
  {| r_id := u "Labor_Law";
     r_text := u "Working hours shall not exceed eight hours a day.";
     r_source := u "pdf";
     r_law_type := u "labor_law";
     r_filename := u "Labor_Law.pdf";
     r_score := 0.9 |}.

Definition sharia_result : Result :=
  {| r_id := u "Sharia_Courts";
     r_text := u "Courts apply the rules of the Sharia.";
     r_source := u "pdf";
     r_law_type := u "sharia_law";
     r_filename := u "Sharia_Courts.pdf";
     r_score := 0.8 |}.

Definition case12_result : Result :=
  {| r_id := u "Case 12";
     r_text := u "The court upheld the dismissal.";
     r_source := u "case";
     r_law_type := u "case_law";
     r_filename := [];
     r_score := 0.5 |}.

(** C1 fails on the code: with the filter ["sharia"] the labour article,
    which the filter drops, is appended by the second loop over
    [pdf_results] and comes back first; the sharia article comes back
    twice. *)
Theorem get_relevant_documents_returns_unfiltered :
  get_relevant_documents (db := basic_latin) sample_env
    (u "working hours") 5 (u "sharia")
  = Ok [labor_result; sharia_result; sharia_result; case12_result].
Proof. vm_compute. reflexivity. Qed.



Definition articles_down (collection : str) (v : vector) (limit : Z)
  : exc (list ScoredPoint) :=
  if str_eqb collection ARTICLES
  then Raise (Exception (u "Not found: Collection doesn't exist"))
  else sample_search collection v limit.

Definition cases_down (collection : str) (v : vector) (limit : Z)
  : exc (list ScoredPoint) :=
  if str_eqb collection CASES then Raise (Exception (u "timed out"))
  else sample_search collection v limit.

Lemma get_relevant_documents_never_raises_witness :
  get_relevant_documents (db := basic_latin)
    {| embedder := Some (fun _ => Ok [1; 0]);
       qdrant_client := Some articles_down;
       openai_client := None |} (u "working hours") 5 (u "labour")
  = Ok [case12_result]
  /\ get_relevant_documents (db := basic_latin)
       {| embedder := Some (fun _ => Ok [1; 0]);
          qdrant_client := Some cases_down;
          openai_client := None |} (u "working hours") 5 (u "labour")
     = Ok [labor_result; labor_result; sharia_result].
Proof.
  split.
  - apply (proj1 (proj2 (proj2 (proj2 (proj2
             (get_relevant_documents_never_raises (db := basic_latin))))))
           (fun _ => Ok [1; 0]) articles_down None (u "working hours") 5%Z
           (u "labour") [1; 0]
           (Exception (u "Not found: Collection doesn't exist"))
           [([ (u "title", u "Case 12");
               (u "text", u "The court upheld the dismissal.") ], 0.5)]);
      reflexivity.
  - apply (proj2 (proj2 (proj2 (proj2 (proj2
             (get_relevant_documents_never_raises (db := basic_latin))))))
           (fun _ => Ok [1; 0]) cases_down None (u "working hours") 5%Z
           (u "labour") [1; 0] (Exception (u "timed out"))
           [([ (u "title", u "Labor_Law");
               (u "text", u "Working hours shall not exceed eight hours a day.");
               (u "source", u "pdf");
               (u "law_type", u "labor_law");
               (u "filename", u "Labor_Law.pdf") ], 0.9);
            ([ (u "title", u "Sharia_Courts");
               (u "text", u "Courts apply the rules of the Sharia.");
               (u "source", u "pdf");
               (u "law_type", u "sharia_law");
               (u "filename", u "Sharia_Courts.pdf") ], 0.8)]);
      reflexivity.
Defined.

(** ** The answer composer *)

Section Composer.
Context {db : UnicodeDB}.

(** The prompt [ask_chatbot] sends. *)
Definition prompt_of (env : Clients) (query law_filter : str) : str :=
  build_prompt query law_filter
    match get_relevant_documents env query 5 law_filter with
    | Ok relevant_docs => relevant_docs
    | Raise _ => []
    end.

Lemma ask_chatbot_generate (env : Clients) (query law_filter : str) :
  ask_chatbot env query law_filter
  = generate (openai_client env) query (prompt_of env query law_filter).
Proof.
  unfold ask_chatbot, prompt_of.
  destruct (get_relevant_documents_returns env query 5 law_filter)
    as (results & _ & -> & _).
  reflexivity.
Qed.

(** C4, as the code has it: when the call to the generation backend
    raises, the answer is fixed by the query and the error alone: the
    canned contract text when the lower-cased query contains
    ["contract"], else the generic message, which quotes the query and
    ends with ["Error details: "] and the text of the error. *)
Theorem ask_chatbot_backend_error (env : Clients) (create : str -> exc str)
    (query law_filter : str) (e : exn) :
  openai_client env = Some create ->
  create (prompt_of env query law_filter) = Raise e ->
  ask_chatbot env query law_filter
  = Ok (if is_infix (u "contract") (lower query) then CONTRACT_FALLBACK
        else GENERIC_HEAD ++ query ++ GENERIC_TAIL ++ exn_str e).
Proof.
  intros Hclient Hraise. rewrite ask_chatbot_generate, Hclient.
  unfold generate. rewrite Hraise.
  now destruct (is_infix (u "contract") (lower query)).
Qed.

(** C5, as the code has it: without a generation client the answer is
    the fixed "service unavailable" sentence, whatever the query; the
    canned contract text is the answer when the client exists, its call
    raises, and the lower-cased query contains ["contract"]; that text is
    not empty and contains ["Offer and Acceptance"]. *)
Theorem ask_chatbot_contract_fallback (env : Clients) (query law_filter : str) :
  (openai_client env = None ->
   ask_chatbot env query law_filter = Ok SERVICE_UNAVAILABLE)
  /\ (forall create e,
        openai_client env = Some create ->
        create (prompt_of env query law_filter) = Raise e ->
        is_infix (u "contract") (lower query) = true ->
        ask_chatbot env query law_filter = Ok CONTRACT_FALLBACK)
  /\ CONTRACT_FALLBACK <> []
  /\ is_infix (u "Offer and Acceptance") CONTRACT_FALLBACK = true.
Proof.
  split; [|split; [|split]].
  - intros Hclient. now rewrite ask_chatbot_generate, Hclient.
  - intros create e Hclient Hraise Hcontract.
    rewrite ask_chatbot_generate, Hclient. unfold generate.
    now rewrite Hraise, Hcontract.
  - discriminate.
  - vm_compute. reflexivity.
Qed.

End Composer.

Definition backend_error : exn :=
  Exception (u "Error code: 401 - Access denied due to invalid subscription key").

Definition env_backend_down : Clients :=
  {| embedder := Some (fun _ => Ok [1; 0]);
     qdrant_client := Some sample_search;
     openai_client := Some (fun _ => Raise backend_error) |}.

Definition env_no_backend : Clients :=
  {| embedder := Some (fun _ => Ok [1; 0]);
     qdrant_client := Some sample_search;
     openai_client := None |}.

Lemma ask_chatbot_backend_error_witness :
  ask_chatbot (db := basic_latin) env_backend_down
    (u "How many working hours a day?") (u "labour")
  = Ok (GENERIC_HEAD ++ u "How many working hours a day?" ++ GENERIC_TAIL
        ++ exn_str backend_error).
Proof.
  apply (ask_chatbot_backend_error (db := basic_latin) env_backend_down
           (fun _ => Raise backend_error)
           (u "How many working hours a day?") (u "labour") backend_error);
    reflexivity.
Defined.

(** C4 fails as stated: the text of the backend error is part of the
    answer. *)
Lemma ask_chatbot_surfaces_backend_error :
  exists answer,
    ask_chatbot (db := basic_latin) env_backend_down
      (u "How many working hours a day?") (u "labour") = Ok answer
    /\ is_infix (exn_str backend_error) answer = true.
Proof. eexists. split; vm_compute; reflexivity. Qed.

Lemma ask_chatbot_contract_fallback_witness :
  ask_chatbot (db := basic_latin) env_no_backend
    (u "Is my contract valid?") (u "hybrid") = Ok SERVICE_UNAVAILABLE
  /\ ask_chatbot (db := basic_latin) env_backend_down
       (u "Is my CONTRACT valid?") (u "hybrid") = Ok CONTRACT_FALLBACK.
Proof.
  split.
  - apply (proj1 (ask_chatbot_contract_fallback (db := basic_latin)
                    env_no_backend (u "Is my contract valid?") (u "hybrid"))).
    reflexivity.
  - apply (proj1 (proj2 (ask_chatbot_contract_fallback (db := basic_latin)
                           env_backend_down (u "Is my CONTRACT valid?")
                           (u "hybrid")))
             (fun _ => Raise backend_error) backend_error);
      reflexivity.
Defined.

(** C5 fails as stated: without a generation client a query about a
    contract gets the "service unavailable" sentence, not the canned
    contract text. *)
Lemma ask_chatbot_no_backend_contract :
  ask_chatbot (db := basic_latin) env_no_backend
    (u "Is my contract valid?") (u "hybrid")
  <> Ok CONTRACT_FALLBACK.
Proof. vm_compute. discriminate. Qed.

End LawgptUtilsProofs.

(* ================================================================== *)
(** * More on the retrieval orchestrator *)
(* ================================================================== *)

From Stdlib Require Import Lqa DecimalString.

Module RetrievalMore.
Import Py PdfProcessor LawgptUtils LawgptUtilsProofs.

Section WithUnicode.
Context {db : UnicodeDB}.

Definition article_of (h : dict str * Q) : Result := article_dict (fst h) (snd h).
Definition case_of (h : dict str * Q) : Result := case_dict (fst h) (snd h).

(** X1: when the embedder works and both searches return hits that all
    carry a payload, [get_relevant_documents] returns the first [top_k]
    of the descending stable sort of three runs: the first [top_k]
    article hits that pass the filter, then every article hit again
    whether it passes or not, then the case hits. *)
Theorem get_relevant_documents_hits (env : Clients)
    (encode : str -> exc vector)
    (search : str -> vector -> Z -> exc (list ScoredPoint))
    (query : str) (top_k : Z) (law_filter : str) (qe : vector)
    (articles cases : list (dict str * Q)) :
  embedder env = Some encode ->
  qdrant_client env = Some search ->
  encode query = Ok qe ->
  search ARTICLES qe (top_k * 3)%Z = Ok (map hit articles) ->
  search CASES qe top_k = Ok (map hit cases) ->
  get_relevant_documents env query top_k law_filter
  = Ok (slice_to
          (sort_by_score_desc
             (map article_of (slice_to (filter (kept law_filter) articles) top_k)
              ++ map article_of articles
              ++ map case_of cases))
          top_k).
Proof.
  intros He Hs Hq Ha Hc.
  rewrite get_relevant_documents_run, He, Hs, Hq. unfold merged.
  rewrite (search_articles_hits _ _ _ _ articles) by exact Ha.
  cbn [snd app].
  rewrite (search_cases_hits _ _ _ cases) by exact Hc.
  cbn [snd]. now rewrite <- app_assoc.
Qed.

Lemma filter_loop_no_payload (law_filter : str) (allowed : list str)
    (hits : list ScoredPoint) :
  Exists (fun r => payload r = None) hits ->
  forall filtered,
  filter_loop law_filter allowed hits filtered = Raise AttributeError.
Proof.
  induction 1 as [r hits Hr|r hits _ IH]; intros filtered; cbn [filter_loop].
  - now rewrite Hr.
  - destruct (payload r); [apply IH|reflexivity].
Qed.

(** X2: one article hit without payload makes the whole article block
    contribute nothing, not even the hits before it: the filter loop
    raises before anything is appended, and the case hits alone are
    returned. *)
Theorem get_relevant_documents_article_without_payload (env : Clients)
    (encode : str -> exc vector)
    (search : str -> vector -> Z -> exc (list ScoredPoint))
    (query : str) (top_k : Z) (law_filter : str) (qe : vector)
    (articles : list ScoredPoint) (cases : list (dict str * Q)) :
  embedder env = Some encode ->
  qdrant_client env = Some search ->
  encode query = Ok qe ->
  search ARTICLES qe (top_k * 3)%Z = Ok articles ->
  Exists (fun r => payload r = None) articles ->
  search CASES qe top_k = Ok (map hit cases) ->
  get_relevant_documents env query top_k law_filter
  = Ok (slice_to (sort_by_score_desc (map case_of cases)) top_k).
Proof.
  intros He Hs Hq Ha Hnone Hc.
  rewrite get_relevant_documents_run, He, Hs, Hq. unfold merged.
  assert (Hblock : forall st,
    search_articles search qe top_k law_filter
      (get LAW_TYPE_MAPPING (lower law_filter) [u "all"]) st = (Ok tt, st)).
  { intros st. unfold search_articles, try_except.
    unfold bind at 1. unfold lift at 1. rewrite Ha.
    unfold bind at 1. unfold lift at 1.
    now rewrite filter_loop_no_payload. }
  rewrite Hblock. cbn [snd].
  now rewrite (search_cases_hits _ _ _ cases) by exact Hc.
Qed.

Lemma for_each_case_cut (good : list (dict str * Q)) (bad : ScoredPoint)
    (rest : list ScoredPoint) (st : list Result) :
  payload bad = None ->
  for_each (map hit good ++ bad :: rest)
    (fun r => d <- lift (case_result r) ;; append d) st
  = (Raise AttributeError, st ++ map case_of good).
Proof.
  intros Hbad. revert st.
  induction good as [|h good IH]; intros st.
  - cbn. unfold bind at 1 2. unfold lift, case_result. rewrite Hbad.
    now rewrite app_nil_r.
  - cbn [map app for_each]. unfold bind at 1 2. unfold lift at 1.
    cbn [case_result hit payload score]. unfold append at 1.
    rewrite IH. now rewrite <- app_assoc.
Qed.

(** X3: a case hit without payload cuts the case results there: the case
    hits before it are kept, it and the hits after it are lost, and the
    article results are not affected. *)
Theorem get_relevant_documents_case_without_payload (env : Clients)
    (encode : str -> exc vector)
    (search : str -> vector -> Z -> exc (list ScoredPoint))
    (query : str) (top_k : Z) (law_filter : str) (qe : vector)
    (articles good : list (dict str * Q)) (bad : ScoredPoint)
    (rest : list ScoredPoint) :
  embedder env = Some encode ->
  qdrant_client env = Some search ->
  encode query = Ok qe ->
  search ARTICLES qe (top_k * 3)%Z = Ok (map hit articles) ->
  search CASES qe top_k = Ok (map hit good ++ bad :: rest) ->
  payload bad = None ->
  get_relevant_documents env query top_k law_filter
  = Ok (slice_to
          (sort_by_score_desc
             (map article_of (slice_to (filter (kept law_filter) articles) top_k)
              ++ map article_of articles
              ++ map case_of good))
          top_k).
Proof.
  intros He Hs Hq Ha Hc Hbad.
  rewrite get_relevant_documents_run, He, Hs, Hq. unfold merged.
  rewrite (search_articles_hits _ _ _ _ articles) by exact Ha.
  cbn [snd app].
  unfold search_cases, try_except. unfold bind at 1. unfold lift at 1.
  rewrite Hc, for_each_case_cut by exact Hbad.
  cbn [snd ret]. now rewrite <- app_assoc.
Qed.

(** X4: the filter ["hybrid"], in any letter case the tables lower to it,
    and every filter name that is not a key of [LAW_TYPE_MAPPING] keep
    every article hit. *)
Theorem unrestricted_filter_keeps_all (law_filter : str)
    (articles : list (dict str * Q)) :
  lower law_filter = u "hybrid"
  \/ lookup LAW_TYPE_MAPPING (lower law_filter) = None ->
  filter (kept law_filter) articles = articles.
Proof.
  intros Hfilter.
  assert (Hkept : forall h, kept law_filter h = true).
  { intros h. unfold kept, passes, get. destruct Hfilter as [-> | ->].
    - reflexivity.
    - cbn [mem existsb]. change (str_eqb (u "all") (u "all")) with true.
      now rewrite orb_true_r. }
  induction articles as [|h articles IH]; [reflexivity|].
  cbn [filter]. now rewrite Hkept, IH.
Qed.

(** ** Ranking *)

Lemma Qlt_bool_lt (a b : Q) : Qlt_bool a b = true <-> (a < b)%Q.
Proof.
  unfold Qlt_bool. rewrite negb_true_iff. split.
  - intros H. apply Qnot_le_lt. intros Hle.
    apply Qle_bool_iff in Hle. congruence.
  - intros H. destruct (Qle_bool b a) eqn:E; [|reflexivity].
    apply Qle_bool_iff in E. lra.
Qed.

Definition has_score (q : Q) (r : Result) : bool := Qeq_bool (r_score r) q.

Lemma insert_desc_same_score (q : Q) (x : Result) (l : list Result) :
  filter (has_score q) (insert_desc x l) = filter (has_score q) (x :: l).
Proof.
  induction l as [|y l IH]; [reflexivity|]. cbn [insert_desc].
  destruct (Qlt_bool (r_score x) (r_score y)) eqn:E; [|reflexivity].
  apply Qlt_bool_lt in E. cbn [filter] in *. rewrite IH.
  destruct (has_score q x) eqn:Ex; [|reflexivity].
  destruct (has_score q y) eqn:Ey; [|reflexivity].
  unfold has_score in Ex, Ey. apply Qeq_bool_iff in Ex, Ey. lra.
Qed.

Lemma insert_desc_head (x : Result) (l : list Result) :
  Forall (by_score_desc x) l -> insert_desc x l = x :: l.
Proof.
  destruct l as [|y l]; [reflexivity|]. intros H.
  apply Forall_inv in H. unfold by_score_desc in H. cbn [insert_desc].
  destruct (Qlt_bool (r_score x) (r_score y)) eqn:E; [|reflexivity].
  apply Qlt_bool_lt in E. lra.
Qed.

(** The ranking sort is stable: the results with one score come out
    in the order in which they were appended (articles that passed the
    filter, all articles, cases); and a list already in descending order
    comes out unchanged, so that sorting twice is sorting once. *)
Theorem sort_by_score_desc_stable :
  (forall q l,
     filter (has_score q) (sort_by_score_desc l) = filter (has_score q) l)
  /\ (forall l, sort_by_score_desc (sort_by_score_desc l)
                = sort_by_score_desc l).
Proof.
  assert (Hid : forall l, StronglySorted by_score_desc l ->
                          sort_by_score_desc l = l).
  { induction 1 as [|x l Hs IH Hx]; [reflexivity|].
    cbn [sort_by_score_desc fold_right]. fold (sort_by_score_desc l).
    rewrite IH. now apply insert_desc_head. }
  split.
  - intros q. induction l as [|x l IH]; [reflexivity|].
    cbn [sort_by_score_desc fold_right]. fold (sort_by_score_desc l).
    rewrite insert_desc_same_score. cbn [filter]. now rewrite IH.
  - intros l. apply Hid, sort_by_score_desc_sorted.
Qed.

(** ** Categories of the ingestion and filters of the retrieval *)

Definition categories : list str :=
  [ u "civil_law"; u "criminal_law"; u "labor_law"; u "company_law";
    u "traffic_law"; u "sharia_law"; u "administrative_law";
    u "constitutional_law"; u "general_law" ].

Lemma categorize_law_values (filename : str) :
  In (categorize_law filename) categories.
Proof.
  unfold categorize_law, categories.
  destruct (is_infix (u "civil") (lower filename)); [cbn; tauto|].
  destruct (is_infix (u "criminal") (lower filename)); [cbn; tauto|].
  destruct (is_infix (u "labor") (lower filename)); [cbn; tauto|].
  destruct (is_infix (u "company") (lower filename)); [cbn; tauto|].
  destruct (is_infix (u "traffic") (lower filename)); [cbn; tauto|].
  destruct (is_infix (u "sharia") (lower filename)); [cbn; tauto|].
  destruct (is_infix (u "board") (lower filename)
            && is_infix (u "grievance") (lower filename)); [cbn; tauto|].
  destruct (is_infix (u "basic") (lower filename)
            && is_infix (u "governance") (lower filename)); cbn; tauto.
Qed.

(** An article hit whose stored [law_type] is the category of its file. *)
Definition chunk_of_file (filename : str) (s : Q) : dict str * Q :=
  ([(u "law_type", categorize_law filename)], s).

(** X6: of the nine categories [categorize_law] gives, each restrictive
    filter keeps exactly one: ["sharia"] keeps [sharia_law], ["labour"]
    keeps [labor_law], ["regulatory"] keeps [administrative_law].  A
    chunk of any other category passes no filter but ["hybrid"]. *)
Theorem filters_on_categories (filename : str) (s : Q) :
  kept (u "sharia") (chunk_of_file filename s)
    = str_eqb (categorize_law filename) (u "sharia_law")
  /\ kept (u "labour") (chunk_of_file filename s)
     = str_eqb (categorize_law filename) (u "labor_law")
  /\ kept (u "regulatory") (chunk_of_file filename s)
     = str_eqb (categorize_law filename) (u "administrative_law").
Proof.
  unfold chunk_of_file, kept, passes. cbn [fst].
  change (get [(u "law_type", categorize_law filename)] (u "law_type") [])
    with (categorize_law filename).
  rewrite (lower_ascii (u "sharia")), (lower_ascii (u "labour")),
    (lower_ascii (u "regulatory")) by reflexivity.
  pose proof (categorize_law_values filename) as Hcat.
  unfold categories in Hcat. cbn [In] in Hcat.
  repeat (destruct Hcat as [<-|Hcat];
          [rewrite lower_ascii by reflexivity; repeat split; reflexivity|]).
  contradiction.
Qed.

End WithUnicode.

(** *** Closed instances *)

Definition unhit (r : ScoredPoint) : dict str * Q :=
  (match payload r with Some p => p | None => [] end, score r).

Definition sample_articles : list (dict str * Q) :=
  map unhit [labor_hit; sharia_hit].

Definition sample_cases : list (dict str * Q) := map unhit [case_hit].

Definition bare_hit : ScoredPoint := {| payload := None; score := 0.7 |}.

Definition search_bare_article (collection : str) (v : vector) (limit : Z)
  : exc (list ScoredPoint) :=
  if str_eqb collection ARTICLES then Ok [labor_hit; bare_hit; sharia_hit]
  else sample_search collection v limit.

Definition search_bare_case (collection : str) (v : vector) (limit : Z)
  : exc (list ScoredPoint) :=
  if str_eqb collection CASES then Ok [case_hit; bare_hit; case_hit]
  else sample_search collection v limit.

Definition env_with (search : str -> vector -> Z -> exc (list ScoredPoint))
  : Clients :=
  {| embedder := Some (fun _ => Ok [1; 0]);
     qdrant_client := Some search;
     openai_client := None |}.

Lemma get_relevant_documents_hits_witness :
  get_relevant_documents (db := basic_latin) (env_with sample_search)
    (u "working hours") 2 (u "Labour")
  = Ok (slice_to
          (sort_by_score_desc
             (map article_of
                (slice_to
                   (filter (kept (db := basic_latin) (u "Labour"))
                      sample_articles) 2)
              ++ map article_of sample_articles
              ++ map case_of sample_cases))
          2).
Proof.
  apply (get_relevant_documents_hits (db := basic_latin)
           (env_with sample_search) (fun _ => Ok [1; 0]) sample_search
           (u "working hours") 2%Z (u "Labour") [1; 0]
           sample_articles sample_cases);
    reflexivity.
Defined.

Lemma get_relevant_documents_article_without_payload_witness :
  get_relevant_documents (db := basic_latin) (env_with search_bare_article)
    (u "working hours") 5 (u "hybrid")
  = Ok (slice_to (sort_by_score_desc (map case_of sample_cases)) 5).
Proof.
  apply (get_relevant_documents_article_without_payload (db := basic_latin)
           (env_with search_bare_article) (fun _ => Ok [1; 0])
           search_bare_article (u "working hours") 5%Z (u "hybrid") [1; 0]
           [labor_hit; bare_hit; sharia_hit] sample_cases);
    try reflexivity.
  apply Exists_cons_tl, Exists_cons_hd. reflexivity.
Defined.

Lemma get_relevant_documents_case_without_payload_witness :
  get_relevant_documents (db := basic_latin) (env_with search_bare_case)
    (u "working hours") 5 (u "hybrid")
  = Ok (slice_to
          (sort_by_score_desc
             (map article_of
                (slice_to
                   (filter (kept (db := basic_latin) (u "hybrid"))
                      sample_articles) 5)
              ++ map article_of sample_articles
              ++ map case_of sample_cases))
          5).
Proof.
  apply (get_relevant_documents_case_without_payload (db := basic_latin)
           (env_with search_bare_case) (fun _ => Ok [1; 0])
           search_bare_case (u "working hours") 5%Z (u "hybrid") [1; 0]
           sample_articles sample_cases bare_hit [case_hit]);
    reflexivity.
Defined.

Lemma unrestricted_filter_keeps_all_witness :
  filter (kept (db := basic_latin) (u "HYBRID")) sample_articles
  = sample_articles
  /\ filter (kept (db := basic_latin) (u "civil")) sample_articles
     = sample_articles.
Proof.
  split.
  - apply (unrestricted_filter_keeps_all (db := basic_latin) (u "HYBRID")
             sample_articles).
    left. reflexivity.
  - apply (unrestricted_filter_keeps_all (db := basic_latin) (u "civil")
             sample_articles).
    right. reflexivity.
Defined.

End RetrievalMore.

(* ================================================================== *)
(** * More on lawgpt_utils.py: filters and the answer composer *)
(* ================================================================== *)

Module ComposerMore.
Import Py LawgptUtils LawgptUtilsProofs.

(** ** Substrings *)

Lemma str_eqb_eq (a b : str) : str_eqb a b = true <-> a = b.
Proof.
  unfold str_eqb. destruct (list_eq_dec N.eq_dec a b); split; congruence.
Qed.

Lemma is_prefix_app (p s b : str) :
  is_prefix p s = true -> is_prefix p (s ++ b) = true.
Proof.
  revert s. induction p as [|c p IH]; intros [|x s] H; cbn in *; try easy.
  apply andb_prop in H as [-> H]. now rewrite IH.
Qed.

Lemma is_prefix_refl (p : str) : is_prefix p p = true.
Proof. induction p as [|c p IH]; [easy|]. cbn. now rewrite N.eqb_refl. Qed.

Lemma is_infix_of_prefix (p s : str) : is_prefix p s = true -> is_infix p s = true.
Proof. intros H. destruct s; cbn in *; now rewrite H. Qed.

Lemma is_infix_app_l (p s b : str) :
  is_infix p s = true -> is_infix p (s ++ b) = true.
Proof.
  induction s as [|x s IH]; intros H.
  - cbn in H. rewrite orb_false_r in H.
    apply is_infix_of_prefix. now apply (is_prefix_app p [] b).
  - cbn [is_infix] in H. apply orb_prop in H as [H|H].
    + apply is_infix_of_prefix. now apply (is_prefix_app p (x :: s) b).
    + cbn [app is_infix]. rewrite (IH H). apply orb_true_r.
Qed.

Lemma is_infix_app_r (p a s : str) :
  is_infix p s = true -> is_infix p (a ++ s) = true.
Proof.
  intros H. induction a as [|x a IH]; [exact H|].
  cbn [app is_infix]. rewrite IH. apply orb_true_r.
Qed.

Lemma is_infix_refl (p : str) : is_infix p p = true.
Proof. apply is_infix_of_prefix, is_prefix_refl. Qed.

Lemma is_infix_join (sep p x : str) (l : list str) :
  In x l -> is_infix p x = true -> is_infix p (join sep l) = true.
Proof.
  induction l as [|y l IH]; [easy|]. intros [->|Hin] Hp.
  - destruct l; [exact Hp|].
    cbn [join]. now apply is_infix_app_l.
  - destruct l as [|z l]; [easy|].
    change (join sep (y :: z :: l)) with (y ++ sep ++ join sep (z :: l)).
    now apply is_infix_app_r, is_infix_app_r, IH.
Qed.

Lemma lookup_not_in {V} (d : dict V) (key : str) :
  ~ In key (map fst d) -> lookup d key = None.
Proof.
  induction d as [|[k v] d IH]; [easy|]. cbn. intros Hnot.
  destruct (str_eqb k key) eqn:E.
  - apply str_eqb_eq in E. tauto.
  - apply IH. tauto.
Qed.

(** ** The filter names and their descriptions *)

Definition descriptions : dict str :=
  [ (u "sharia", u "Islamic law and Sharia-based legal principles");
    (u "labour", u "Employment law, labor rights, and workplace regulations");
    (u "regulatory", u "Administrative law and regulatory compliance");
    (u "hybrid", u "All legal areas (no filter applied)") ].

Definition get_available_filters : list str := map fst LAW_TYPE_MAPPING.

Section WithUnicode.
Context {db : UnicodeDB}.

Definition get_filter_description (filter_name : str) : str :=
  get descriptions (lower filter_name) (u "Unknown filter").

(** X7: the filter names offered and the descriptions agree: every name
    of [get_available_filters] has a description of its own, and a name
    that does not lower to one of them is described as
    ["Unknown filter"]. *)
Theorem filter_descriptions_agree :
  (forall name, In name get_available_filters ->
     lookup descriptions name = Some (get_filter_description name)
     /\ get_filter_description name <> u "Unknown filter")
  /\ (forall name, ~ In (lower name) get_available_filters ->
        get_filter_description name = u "Unknown filter").
Proof.
  split.
  - intros name Hin. unfold get_filter_description.
    cbn in Hin. destruct Hin as [<-|[<-|[<-|[<-|[]]]]];
      rewrite lower_ascii by reflexivity; split;
      solve [reflexivity | vm_compute; discriminate].
  - intros name Hnot. unfold get_filter_description, get.
    now rewrite (lookup_not_in descriptions (lower name) Hnot).
Qed.

(** ** The answer composer *)

(** X8: [ask_chatbot] never raises: whichever of the three clients is
    missing or raises, it returns a text; and when the generation
    backend answers, that text is its answer. *)
Theorem ask_chatbot_returns (env : Clients) (query law_filter : str) :
  exists answer,
    ask_chatbot env query law_filter = Ok answer
    /\ forall create content,
         openai_client env = Some create ->
         create (prompt_of env query law_filter) = Ok content ->
         answer = content.
Proof.
  rewrite ask_chatbot_generate. unfold generate.
  destruct (openai_client env) as [create|].
  - destruct (create (prompt_of env query law_filter)) as [content|e] eqn:E.
    + exists content. split; [reflexivity|].
      intros create' content' [= <-] H. congruence.
    + destruct (is_infix (u "contract") (lower query));
        eexists; (split; [reflexivity|]);
        intros create' content' [= <-] H; congruence.
  - eexists. split; [reflexivity|]. discriminate.
Qed.

Definition is_case (doc : Result) : bool := str_eqb (r_source doc) (u "case").
Definition is_pdf (doc : Result) : bool := str_eqb (r_source doc) (u "pdf").

Lemma filter_twice {A} (f : A -> bool) (l : list A) :
  filter f (filter f l) = filter f l.
Proof.
  induction l as [|x l IH]; [reflexivity|]. cbn.
  destruct (f x) eqn:E; [cbn; now rewrite E, IH|exact IH].
Qed.

Lemma filter_none {A} (f g : A -> bool) (l : list A) :
  (forall x, g x = true -> f x = false) -> filter f (filter g l) = [].
Proof.
  intros H. induction l as [|x l IH]; [reflexivity|]. cbn.
  destruct (g x) eqn:E; [cbn; now rewrite (H x E)|exact IH].
Qed.

Lemma case_not_pdf (doc : Result) : is_case doc = true -> is_pdf doc = false.
Proof.
  unfold is_case, is_pdf. intros H. apply str_eqb_eq in H. now rewrite H.
Qed.

Lemma pdf_not_case (doc : Result) : is_pdf doc = true -> is_case doc = false.
Proof.
  unfold is_case, is_pdf. intros H. apply str_eqb_eq in H. now rewrite H.
Qed.

(** X9: the context of the prompt does not follow the ranking: it is the
    context of the case results followed by the article results, and a
    result whose source is neither ["case"] nor ["pdf"] (an article hit
    stored without [source] gets ["unknown"]) is left out of it. *)
Theorem build_context_groups (law_filter : str) (relevant_docs : list Result) :
  build_context law_filter relevant_docs
  = build_context law_filter
      (filter is_case relevant_docs ++ filter is_pdf relevant_docs).
Proof.
  unfold build_context.
  fold is_case is_pdf. rewrite !filter_app, !filter_twice.
  rewrite (filter_none is_case is_pdf) by exact pdf_not_case.
  rewrite (filter_none is_pdf is_case) by exact case_not_pdf.
  now rewrite app_nil_r.
Qed.

Lemma build_context_has_text (law_filter : str) (docs : list Result)
    (doc : Result) :
  In doc docs -> is_case doc = true \/ is_pdf doc = true ->
  is_infix (r_text doc) (build_context law_filter docs) = true.
Proof.
  intros Hin Hsrc. unfold build_context. fold is_case is_pdf.
  destruct Hsrc as [Hc|Hp].
  - assert (Hf : In doc (filter is_case docs)) by now apply filter_In.
    destruct (filter is_case docs) as [|c cs] eqn:Ec; [easy|].
    apply is_infix_join with
      (x := nl ++ nl ++ u "--- RELEVANT CASES ---" ++ nl
            ++ join (nl ++ nl) (map case_block (c :: cs))).
    + destruct (filter is_pdf docs); cbn; tauto.
    + do 4 apply is_infix_app_r.
      apply is_infix_join with (x := case_block doc);
        [now apply in_map|].
      unfold case_block. do 3 apply is_infix_app_r. apply is_infix_refl.
  - assert (Hf : In doc (filter is_pdf docs)) by now apply filter_In.
    destruct (filter is_pdf docs) as [|p ps] eqn:Ep; [easy|].
    apply is_infix_join with
      (x := nl ++ nl ++ u "--- RELEVANT LAW ARTICLES ---" ++ nl
            ++ join (nl ++ nl) (map pdf_block (p :: ps))).
    + destruct (filter is_case docs); cbn; tauto.
    + do 4 apply is_infix_app_r.
      apply is_infix_join with (x := pdf_block doc);
        [now apply in_map|].
      unfold pdf_block. do 6 apply is_infix_app_r. apply is_infix_refl.
Qed.

(** X10: the prompt quotes the query as it was typed, and the text of
    every retrieved case and article is part of it. *)
Theorem build_prompt_grounded (query law_filter : str)
    (relevant_docs : list Result) :
  is_infix query (build_prompt query law_filter relevant_docs) = true
  /\ forall doc, In doc relevant_docs ->
       is_case doc = true \/ is_pdf doc = true ->
       is_infix (r_text doc) (build_prompt query law_filter relevant_docs)
       = true.
Proof.
  assert (Hhead : forall rest,
            is_infix query (prompt_head query law_filter ++ rest) = true).
  { intros rest. apply is_infix_app_l. unfold prompt_head.
    do 6 apply is_infix_app_r. apply is_infix_app_l, is_infix_refl. }
  split.
  - unfold build_prompt. destruct relevant_docs; apply Hhead.
  - intros doc Hin Hsrc. unfold build_prompt.
    destruct relevant_docs as [|d ds]; [easy|].
    do 5 apply is_infix_app_r. apply is_infix_app_l.
    now apply build_context_has_text.
Qed.

End WithUnicode.

(** *** Closed instances *)

Lemma filter_descriptions_agree_witness :
  get_filter_description (db := basic_latin) (u "labour") <> u "Unknown filter"
  /\ get_filter_description (db := basic_latin) (u "Civil")
     = u "Unknown filter".
Proof.
  split.
  - apply (proj1 (filter_descriptions_agree (db := basic_latin)) (u "labour")).
    cbn. tauto.
  - apply (proj2 (filter_descriptions_agree (db := basic_latin)) (u "Civil")).
    vm_compute. intuition discriminate.
Defined.

Definition env_answering : Clients :=
  {| embedder := Some (fun _ => Ok [1; 0]);
     qdrant_client := Some sample_search;
     openai_client := Some (fun _ => Ok (u "Eight hours a day.")) |}.

Lemma ask_chatbot_returns_witness :
  exists answer,
    ask_chatbot (db := basic_latin) env_answering
      (u "How many working hours a day?") (u "labour") = Ok answer
    /\ answer = u "Eight hours a day.".
Proof.
  destruct (ask_chatbot_returns (db := basic_latin) env_answering
              (u "How many working hours a day?") (u "labour"))
    as (answer & Hrun & Hcontent).
  exists answer. split; [exact Hrun|].
  apply (Hcontent (fun _ => Ok (u "Eight hours a day."))); reflexivity.
Defined.

Lemma build_prompt_grounded_witness :
  is_infix (u "Working hours shall not exceed eight hours a day.")
    (build_prompt (db := basic_latin) (u "How many working hours a day?")
       (u "labour") [case12_result; labor_result])
  = true.
Proof.
  apply (proj2 (build_prompt_grounded (db := basic_latin)
                  (u "How many working hours a day?") (u "labour")
                  [case12_result; labor_result]) labor_result).
  - right. now left.
  - right. reflexivity.
Defined.

End ComposerMore.

(* ================================================================== *)
(** * More on the normalizer and the chunker *)
(* ================================================================== *)

Module PdfProcessorMore.
Import Py PdfProcessor PdfProcessorProofs.

(** ** What [clean_text] gives back *)

Lemma sub_from_keeps (P : char -> Prop) (r : regex) (s : str) :
  Forall P s -> forall k, Forall P (sub_from r [] k s).
Proof.
  induction 1 as [|c s Hc Hs IH]; intros k; cbn [sub_from]; [constructor|].
  destruct k as [|k]; [|apply IH].
  destruct (rmatch r (c :: s)) as [[|n]|]; cbn [app];
    solve [apply IH | constructor; [exact Hc|apply IH]].
Qed.

Lemma strip_keeps (P : char -> Prop) (s : str) :
  Forall P s -> Forall P (strip s).
Proof.
  intros H. destruct (strip_split s) as (w1 & w2 & Hs). rewrite Hs in H.
  apply Forall_app in H as [_ H]. now apply Forall_app in H as [H _].
Qed.

Lemma strip_length (s : str) : (List.length (strip s) <= List.length s)%nat.
Proof.
  destruct (strip_split s) as (w1 & w2 & Hs).
  rewrite Hs at 2. rewrite !length_app. lia.
Qed.

Lemma squeeze_length (s : str) :
  forall b, (List.length (squeeze b s) <= List.length s)%nat.
Proof.
  induction s as [|c s IH]; intros b; [reflexivity|]. cbn [squeeze].
  pose proof (IH true) as Ht. pose proof (IH false) as Hf.
  destruct (isspace c); [destruct b|]; cbn [List.length]; lia.
Qed.

Lemma squeeze_spaces (s : str) :
  forall b, Forall (fun c => isspace c = true -> c = 32%N) (squeeze b s).
Proof.
  induction s as [|c s IH]; intros b; [constructor|]. cbn [squeeze].
  destruct (isspace c) eqn:E.
  - destruct b; [apply IH|]. constructor; [reflexivity|apply IH].
  - constructor; [congruence|apply IH].
Qed.

Section WithUnicode.
Context {db : UnicodeDB}.

Lemma sub_special_kept (s : str) :
  Forall (fun c => keep c = true) (sub re_special [] s).
Proof.
  unfold sub. induction s as [|c s IH]; [constructor|].
  cbn [sub_from]. unfold re_special at 1. cbn [rmatch].
  destruct (keep c) eqn:E; cbn [negb option_map app].
  - constructor; assumption.
  - exact IH.
Qed.

Lemma clean_text_length (x : str) :
  (List.length (clean_text x) <= List.length x)%nat.
Proof.
  unfold clean_text.
  etransitivity; [apply strip_length|]. unfold sub.
  etransitivity; [apply sub_from_length|].
  etransitivity; [apply sub_from_length|].
  etransitivity; [apply sub_from_length|].
  rewrite (proj1 (sub_spaces_squeeze x)). apply squeeze_length.
Qed.

Lemma clean_text_stripped (x : str) : strip (clean_text x) = clean_text x.
Proof. unfold clean_text. apply strip_idem. Qed.

(** X11: whatever the input, the text [clean_text] returns is no longer
    than the input, neither starts nor ends with whitespace, holds only
    characters of the whitelist, and its only whitespace character is
    the space: tabs and line breaks never survive. *)
Theorem clean_text_output (x : str) :
  (List.length (clean_text x) <= List.length x)%nat
  /\ strip (clean_text x) = clean_text x
  /\ Forall (fun c => keep c = true) (clean_text x)
  /\ Forall (fun c => isspace c = true -> c = 32%N) (clean_text x).
Proof.
  split; [apply clean_text_length|]. split; [apply clean_text_stripped|].
  unfold clean_text. split.
  - apply strip_keeps, sub_special_kept.
  - apply strip_keeps. unfold sub.
    do 3 apply sub_from_keeps.
    rewrite (proj1 (sub_spaces_squeeze x)). apply squeeze_spaces.
Qed.

(** *** The texts [clean_text] leaves as they are *)






End WithUnicode.


(** ** One iteration of the chunker *)

(** The value of [end] when the chunk is cut, from [start] at the top of
    the iteration. *)
Definition next_end (text : str) (chunk_size start : Z) : exc Z :=
  let end0 := (start + chunk_size)%Z in
  match
    (if (end0 <? len text)%Z then
       scan_back text end0
         (Z.to_nat (end0 - Z.max (start + chunk_size - 200) start))
     else Ok None)
  with
  | Raise e => Raise e
  | Ok (Some e) => Ok e
  | Ok None => Ok end0
  end.

Lemma chunk_loop_step (fuel : nat) (text : str) (chunk_size overlap : Z)
    (start : Z) (chunks : list str) (wins : list window) :
  chunk_loop (S fuel) text chunk_size overlap start chunks wins =
  if (start <? len text)%Z then
    match next_end text chunk_size start with
    | Raise e => Some (Raise e)
    | Ok end_ =>
        if (len text <=? end_ - overlap)%Z
        then Some (Ok (chunks ++ emit text (start, end_),
                       wins ++ [(start, end_)]))
        else chunk_loop fuel text chunk_size overlap (end_ - overlap)%Z
               (chunks ++ emit text (start, end_)) (wins ++ [(start, end_)])
    end
  else Some (Ok (chunks, wins)).
Proof.
  cbn [chunk_loop]. unfold next_end.
  destruct (start <? len text)%Z; [|reflexivity].
  assert (Hemit : forall end_,
    match strip (slice text start end_) with
    | [] => chunks
    | _ :: _ => chunks ++ [strip (slice text start end_)]
    end = chunks ++ emit text (start, end_)).
  { intros end_. unfold emit. cbn [fst snd].
    destruct (strip (slice text start end_));
      [now rewrite app_nil_r|reflexivity]. }
  destruct (if (start + chunk_size <? len text)%Z then _ else _)
    as [[e|]|e]; try reflexivity; now rewrite Hemit.
Qed.

(** What the backward scan finds: the terminator nearest to where it
    starts. *)
Lemma scan_back_finds (text : str) (n : nat) :
  forall i r, scan_back text i n = Ok r ->
  match r with
  | Some e =>
      (i - Z.of_nat n < e - 1 <= i)%Z
      /\ (exists c, index text (e - 1) = Ok c /\ is_terminator c = true)
      /\ (forall j, (e - 1 < j <= i)%Z ->
            exists c, index text j = Ok c /\ is_terminator c = false)
  | None =>
      forall j, (i - Z.of_nat n < j <= i)%Z ->
        exists c, index text j = Ok c /\ is_terminator c = false
  end.
Proof.
  induction n as [|n IH]; intros i r Hr.
  - cbn in Hr. injection Hr as <-. intros j Hj. lia.
  - cbn [scan_back] in Hr.
    destruct (index text i) as [c|e] eqn:Ei; [|discriminate].
    destruct (is_terminator c) eqn:Et.
    + injection Hr as <-. replace (i + 1 - 1)%Z with i by lia.
      split; [lia|]. split; [eauto|]. intros j Hj. lia.
    + specialize (IH (i - 1)%Z r Hr). destruct r as [e|].
      * destruct IH as (Hb & Hterm & Hafter). split; [lia|].
        split; [exact Hterm|]. intros j Hj.
        destruct (Z.eq_dec j i) as [->|Hne]; [eauto|]. apply Hafter. lia.
      * intros j Hj.
        destruct (Z.eq_dec j i) as [->|Hne]; [eauto|]. apply IH. lia.
Qed.

(** The stretch of positions the scan of an iteration looks at. *)
Definition scan_floor (chunk_size start : Z) : Z :=
  Z.max (start + chunk_size - 200) start.

(** A window cut at a sentence end, or cut hard at [start + chunk_size]. *)
Definition cut_at_sentence (text : str) (chunk_size : Z) (w : window) : Prop :=
  let (start, end_) := w in
  (scan_floor chunk_size start + 2 <= end_ <= start + chunk_size + 1)%Z
  /\ (exists c, index text (end_ - 1) = Ok c /\ is_terminator c = true)
  /\ (forall j, (end_ <= j <= start + chunk_size)%Z ->
        exists c, index text j = Ok c /\ is_terminator c = false).

Definition cut_hard (text : str) (chunk_size : Z) (w : window) : Prop :=
  let (start, end_) := w in
  end_ = (start + chunk_size)%Z
  /\ ((len text <= start + chunk_size)%Z
      \/ forall j, (scan_floor chunk_size start < j <= start + chunk_size)%Z ->
           exists c, index text j = Ok c /\ is_terminator c = false).

Lemma next_end_cut (text : str) (chunk_size start e : Z) :
  next_end text chunk_size start = Ok e ->
  cut_at_sentence text chunk_size (start, e)
  \/ cut_hard text chunk_size (start, e).
Proof.
  unfold next_end, cut_at_sentence, cut_hard, scan_floor.
  set (end0 := (start + chunk_size)%Z).
  set (lo := Z.max (end0 - 200) start).
  destruct (Z.ltb_spec end0 (len text)) as [Hin|Hout].
  - destruct (scan_back text end0 (Z.to_nat (end0 - lo))) as [r|x] eqn:Es;
      [|discriminate].
    pose proof (scan_back_finds text _ _ _ Es) as Hr.
    destruct r as [e'|]; intros [= <-].
    + left. destruct Hr as (Hb & Hterm & Hafter).
      split; [lia|]. split; [exact Hterm|].
      intros j Hj. apply Hafter. lia.
    + right. split; [reflexivity|]. right. intros j Hj. apply Hr. lia.
  - intros [= <-]. right. split; [reflexivity|]. left. lia.
Qed.

Section Progress.
Variables (text : str) (chunk_size overlap : Z).
Hypothesis Hconf : progressing chunk_size overlap.

Lemma next_end_progress (start e : Z) :
  next_end text chunk_size start = Ok e ->
  (start + overlap < e <= start + chunk_size + 1)%Z.
Proof.
  intros He. destruct Hconf as [[Hov Hlt] Hbrk].
  destruct (next_end_cut text chunk_size start e He) as [H|H].
  - destruct H as (Hb & _). unfold scan_floor in Hb. lia.
  - destruct H as (-> & _). lia.
Qed.

(** Every window of a run satisfies what every iteration establishes. *)
Lemma chunk_loop_invariant (P : window -> Prop) :
  (forall start e, (0 <= start < len text)%Z ->
     next_end text chunk_size start = Ok e -> P (start, e)) ->
  forall fuel start chunks wins chunks' wins',
  (0 <= start)%Z ->
  chunk_loop fuel text chunk_size overlap start chunks wins
    = Some (Ok (chunks', wins')) ->
  exists ws, wins' = wins ++ ws /\ chunks' = chunks ++ emitted text ws
             /\ Forall P ws.
Proof.
  intros HP. induction fuel as [|fuel IH];
    intros start chunks wins chunks' wins' Hs Hrun.
  - cbn [chunk_loop] in Hrun.
    destruct (start <? len text)%Z; [discriminate|].
    injection Hrun as <- <-. exists []. now rewrite !app_nil_r.
  - rewrite chunk_loop_step in Hrun.
    destruct (Z.ltb_spec start (len text)) as [Hin|Hout].
    2:{ injection Hrun as <- <-. exists []. now rewrite !app_nil_r. }
    destruct (next_end text chunk_size start) as [e|x] eqn:He;
      [|discriminate].
    pose proof (next_end_progress start e He) as Hprog.
    assert (Hw : P (start, e)) by (apply HP; [lia|exact He]).
    destruct (len text <=? e - overlap)%Z.
    + injection Hrun as <- <-. exists [(start, e)].
      unfold emitted. cbn [flat_map]. rewrite app_nil_r.
      repeat split. now constructor.
    + apply IH in Hrun as (ws & -> & -> & Hall); [|lia].
      exists ((start, e) :: ws). unfold emitted. cbn [flat_map].
      rewrite <- !app_assoc. repeat split. now constructor.
Qed.

End Progress.

Lemma slice_length_le {A} (s : list A) (a b : Z) :
  (0 <= a <= b)%Z -> (Z.of_nat (List.length (slice s a b)) <= b - a)%Z.
Proof.
  intros Ha. unfold slice. rewrite length_firstn. unfold clamp.
  destruct (Z.ltb_spec a 0); [lia|].
  destruct (Z.ltb_spec b 0); lia.
Qed.

Lemma chunks_bounded (text : str)
    (chunk_size overlap : Z) (fuel : nat) (chunks : list str) :
  progressing chunk_size overlap ->
  (chunk_size < len text)%Z ->
  split_text_into_chunks fuel text chunk_size overlap = Some (Ok chunks) ->
  Forall (fun chunk => chunk <> [] /\ strip chunk = chunk
                       /\ (len chunk <= chunk_size + 1)%Z) chunks.
Proof.
  intros Hconf Hlong Hrun. unfold split_text_into_chunks, split_trace in Hrun.
  destruct (Z.leb_spec (len text) chunk_size); [lia|].
  destruct (chunk_loop fuel text chunk_size overlap 0 [] [])
    as [[[cs ws]|e]|] eqn:E; try discriminate.
  injection Hrun as <-.
  apply (chunk_loop_invariant text chunk_size overlap Hconf
           (fun w => (0 <= fst w <= snd w
                      /\ snd w <= fst w + chunk_size + 1)%Z))
    in E as (ws' & _ & -> & Hall); [| |lia].
  2:{ intros start e Hs He. cbn [fst snd].
      pose proof (next_end_progress text chunk_size overlap Hconf start e He).
      destruct Hconf as [[Hov _] _]. lia. }
  cbn [app]. unfold emitted. apply Forall_forall. intros chunk Hin.
  apply in_flat_map in Hin as (w & Hw & Hin).
  rewrite Forall_forall in Hall. specialize (Hall w Hw). destruct Hall as [H0 H1].
  unfold emit in Hin.
  destruct (strip (slice text (fst w) (snd w))) as [|c rest] eqn:Es; [easy|].
  destruct Hin as [<-|[]]. rewrite <- Es. split; [rewrite Es; discriminate|].
  split; [apply strip_idem|].
  pose proof (strip_length (slice text (fst w) (snd w))) as Hl1.
  pose proof (slice_length_le text (fst w) (snd w) H0) as Hl2.
  unfold len. lia.
Qed.

(** X12: with a configuration that makes progress, every chunk of a text
    longer than [chunk_size] is non-empty, neither starts nor ends with
    whitespace, and has at most [chunk_size + 1] characters: a chunk
    cut right after a terminator at position [start + chunk_size] is one
    character longer than [chunk_size]. *)
Theorem split_text_into_chunks_chunk_bounds (text : str)
    (chunk_size overlap : Z) (fuel : nat) (chunks : list str) :
  progressing chunk_size overlap ->
  (chunk_size < len text)%Z ->
  split_text_into_chunks fuel text chunk_size overlap = Some (Ok chunks) ->
  Forall (fun chunk => chunk <> [] /\ strip chunk = chunk
                       /\ (len chunk <= chunk_size + 1)%Z) chunks.
Proof. apply chunks_bounded. Qed.

(** X13: with a configuration that makes progress, every window of the
    chunker is cut in one of two ways.  Either it ends right after a
    sentence terminator, the last one among the positions after
    [max(start + chunk_size - 200, start)] up to [start + chunk_size],
    or it ends at [start + chunk_size], and then the text ends there or
    those positions hold no terminator. *)
Theorem split_text_into_chunks_sentence_cut (text : str)
    (chunk_size overlap : Z) (fuel : nat) (chunks : list str)
    (ws : list window) :
  progressing chunk_size overlap ->
  split_trace fuel text chunk_size overlap = Some (Ok (chunks, ws)) ->
  Forall (fun w => cut_at_sentence text chunk_size w
                   \/ cut_hard text chunk_size w) ws.
Proof.
  intros Hconf Hrun. unfold split_trace in Hrun.
  destruct (len text <=? chunk_size)%Z.
  - injection Hrun as <- <-. constructor.
  - apply (chunk_loop_invariant text chunk_size overlap Hconf
             (fun w => cut_at_sentence text chunk_size w
                       \/ cut_hard text chunk_size w))
      in Hrun as (ws' & -> & _ & Hall); [exact Hall| |lia].
    intros start e _ He. now apply next_end_cut.
Qed.

(** ** Configurations that do not make progress *)

(** [n] letters. *)
Definition plain (n : nat) : str := repeat 97%N n.

(** A text on which the first iteration moves [start] back to 0 or
    below: letters only when [overlap >= chunk_size], else one full stop
    right after the lower end of the scan. *)
Definition hang_text (chunk_size overlap : Z) : str :=
  if (chunk_size <=? overlap)%Z then plain (Z.to_nat chunk_size + 1)
  else plain (Z.to_nat (Z.max (chunk_size - 200) 0) + 1) ++ [46%N]
       ++ plain (Z.to_nat (chunk_size - Z.max (chunk_size - 200) 0)).

Lemma index_nth {A} (s : list A) (i : Z) (c : A) :
  (0 <= i)%Z -> nth_error s (Z.to_nat i) = Some c -> index s i = Ok c.
Proof.
  intros Hi Hn. unfold index.
  assert (Hlt : (Z.to_nat i < List.length s)%nat).
  { apply nth_error_Some. congruence. }
  destruct (Z.ltb_spec i 0); [lia|].
  destruct (Z.ltb_spec i 0); [lia|].
  destruct (Z.leb_spec (Z.of_nat (List.length s)) i); [lia|].
  cbn. now rewrite Hn.
Qed.

Lemma index_in {A} (s : list A) (i : Z) (c : A) : index s i = Ok c -> In c s.
Proof.
  unfold index.
  destruct (_ || _); [discriminate|].
  destruct (nth_error s _) as [x|] eqn:E; [|discriminate].
  intros [= <-]. now apply nth_error_In in E.
Qed.

Lemma scan_back_plain (n : nat) (m : nat) :
  forall i e, scan_back (plain m) i n <> Ok (Some e).
Proof.
  induction n as [|n IH]; intros i e; cbn [scan_back]; [discriminate|].
  destruct (index (plain m) i) as [c|x] eqn:E; [|discriminate].
  apply index_in, repeat_spec in E. subst c. apply IH.
Qed.

Lemma next_end_plain (m : nat) (chunk_size start e : Z) :
  next_end (plain m) chunk_size start = Ok e -> e = (start + chunk_size)%Z.
Proof.
  unfold next_end.
  destruct (start + chunk_size <? len (plain m))%Z; [|now intros [= <-]].
  destruct (scan_back (plain m) _ _) as [[e'|]|x] eqn:E;
    [now apply scan_back_plain in E|now intros [= <-]|discriminate].
Qed.

Lemma chunk_loop_plain (m : nat) (chunk_size overlap : Z) (fuel : nat) :
  (chunk_size <= overlap)%Z -> (0 < m)%nat ->
  forall start chunks wins r,
  (start <= 0)%Z ->
  chunk_loop fuel (plain m) chunk_size overlap start chunks wins
  <> Some (Ok r).
Proof.
  intros Hov Hm. assert (Hlen : (0 < len (plain m))%Z).
  { unfold len, plain. rewrite repeat_length. lia. }
  induction fuel as [|fuel IH]; intros start chunks wins r Hs.
  - cbn [chunk_loop]. destruct (Z.ltb_spec start (len (plain m)));
      [discriminate|lia].
  - rewrite chunk_loop_step.
    destruct (Z.ltb_spec start (len (plain m))); [|lia].
    destruct (next_end (plain m) chunk_size start) as [e|x] eqn:E;
      [|discriminate].
    apply next_end_plain in E. subst e.
    destruct (Z.leb_spec (len (plain m)) (start + chunk_size - overlap));
      [lia|]. apply IH. lia.
Qed.

Section FullStop.
Variables (p m : nat).
Let text : str := plain p ++ [46%N] ++ plain m.

Lemma full_stop_at : index text (Z.of_nat p) = Ok 46%N.
Proof.
  apply index_nth; [lia|]. rewrite Nat2Z.id. unfold text.
  rewrite nth_error_app2; unfold plain; rewrite repeat_length; [|lia].
  now rewrite Nat.sub_diag.
Qed.

Lemma letter_after (j : Z) :
  (Z.of_nat p < j < len text)%Z -> index text j = Ok 97%N.
Proof.
  intros Hj. unfold len, text in Hj.
  rewrite !length_app in Hj. unfold plain in Hj.
  rewrite !repeat_length in Hj. cbn [List.length] in Hj.
  apply index_nth; [lia|]. unfold text.
  rewrite nth_error_app2; unfold plain; rewrite repeat_length; [|lia].
  destruct (Z.to_nat j - p)%nat as [|k] eqn:Ek; [lia|]. cbn [app nth_error].
  apply nth_error_repeat. lia.
Qed.

Lemma scan_back_full_stop (n : nat) :
  forall i,
  (i - Z.of_nat n < Z.of_nat p <= i)%Z -> (i < len text)%Z ->
  scan_back text i n = Ok (Some (Z.of_nat p + 1)%Z).
Proof.
  induction n as [|n IH]; intros i Hi Hlen; [lia|]. cbn [scan_back].
  destruct (Z.eq_dec i (Z.of_nat p)) as [->|Hne].
  - now rewrite full_stop_at.
  - rewrite letter_after by lia. cbn. apply IH; lia.
Qed.

Lemma chunk_loop_full_stop (chunk_size overlap : Z) (fuel : nat) :
  (0 <= Z.of_nat p - 1 <= chunk_size - 1)%Z ->
  (chunk_size - 200 <= Z.of_nat p - 1)%Z ->
  (chunk_size < len text)%Z ->
  (Z.of_nat p + 1 <= overlap <= chunk_size)%Z ->
  forall start chunks wins r,
  (Z.of_nat p - chunk_size <= start <= 0)%Z ->
  chunk_loop fuel text chunk_size overlap start chunks wins <> Some (Ok r).
Proof.
  intros Hp Hlo Hlen Hov.
  induction fuel as [|fuel IH]; intros start chunks wins r Hs.
  - cbn [chunk_loop]. destruct (Z.ltb_spec start (len text));
      [discriminate|lia].
  - rewrite chunk_loop_step.
    destruct (Z.ltb_spec start (len text)); [|lia].
    assert (E : next_end text chunk_size start = Ok (Z.of_nat p + 1)%Z).
    { unfold next_end.
      destruct (Z.ltb_spec (start + chunk_size) (len text)); [|lia].
      rewrite scan_back_full_stop; [reflexivity|lia|lia]. }
    rewrite E.
    destruct (Z.leb_spec (len text) (Z.of_nat p + 1 - overlap)); [lia|].
    apply IH. lia.
Qed.

End FullStop.

(** For a positive [chunk_size] and an [overlap] that is not negative,
    a configuration that is not [progressing] has a text longer than
    [chunk_size] for which no number of iterations returns chunks. *)
Lemma progressing_necessary (chunk_size overlap : Z) :
  (0 < chunk_size)%Z -> (0 <= overlap)%Z ->
  ~ progressing chunk_size overlap ->
  (chunk_size < len (hang_text chunk_size overlap))%Z
  /\ forall fuel chunks,
       split_text_into_chunks fuel (hang_text chunk_size overlap)
         chunk_size overlap <> Some (Ok chunks).
Proof.
  intros Hcs Hov Hnot. unfold hang_text.
  destruct (Z.leb_spec chunk_size overlap) as [Hge|Hlt].
  - assert (Hlen : (chunk_size < len (plain (Z.to_nat chunk_size + 1)))%Z).
    { unfold len, plain. rewrite repeat_length. lia. }
    split; [exact Hlen|]. intros fuel chunks.
    unfold split_text_into_chunks, split_trace.
    destruct (Z.leb_spec (len (plain (Z.to_nat chunk_size + 1))) chunk_size);
      [lia|].
    destruct (chunk_loop fuel _ chunk_size overlap 0 [] [])
      as [[[cs ws]|x]|] eqn:E; try discriminate.
    apply chunk_loop_plain in E; [easy|exact Hge|lia|lia].
  - set (lo := Z.max (chunk_size - 200) 0) in *.
    set (text := plain (Z.to_nat lo + 1) ++ [46%N]
                 ++ plain (Z.to_nat (chunk_size - lo))).
    assert (Hbad : (lo + 2 <= overlap)%Z).
    { unfold progressing in Hnot. fold lo in Hnot. lia. }
    assert (Hlen : len text = (chunk_size + 2)%Z).
    { unfold len, text, plain. rewrite !length_app, !repeat_length.
      cbn [List.length]. lia. }
    split; [lia|]. intros fuel chunks.
    unfold split_text_into_chunks, split_trace. fold text.
    destruct (Z.leb_spec (len text) chunk_size); [lia|].
    destruct (chunk_loop fuel text chunk_size overlap 0 [] [])
      as [[[cs ws]|x]|] eqn:E; try discriminate.
    assert (Hlo : (0 <= lo <= chunk_size - 1 /\ chunk_size - 200 <= lo)%Z)
      by (unfold lo; lia).
    apply (chunk_loop_full_stop (Z.to_nat lo + 1)
             (Z.to_nat (chunk_size - lo))) in E;
      [easy|lia|lia|fold text; lia|lia|lia].
Qed.


Definition alphabet : str := u "abcdefghij.klmnopqrstuvwxyz".

Lemma split_text_into_chunks_chunk_bounds_witness :
  Forall (fun chunk => chunk <> [] /\ strip chunk = chunk
                       /\ (len chunk <= 10 + 1)%Z)
    [u "abcdefghij."; u ".klmnopqrs"; u "stuvwxyz"].
Proof.
  apply (split_text_into_chunks_chunk_bounds alphabet 10 1 5
           [u "abcdefghij."; u ".klmnopqrs"; u "stuvwxyz"]).
  - unfold progressing. lia.
  - vm_compute. reflexivity.
  - vm_compute. reflexivity.
Defined.

Lemma split_text_into_chunks_sentence_cut_witness :
  Forall (fun w => cut_at_sentence alphabet 10 w \/ cut_hard alphabet 10 w)
    [(0, 11); (10, 20); (19, 29)]%Z.
Proof.
  apply (split_text_into_chunks_sentence_cut alphabet 10 1 5
           [u "abcdefghij."; u ".klmnopqrs"; u "stuvwxyz"]
           [(0, 11); (10, 20); (19, 29)]%Z).
  - unfold progressing. lia.
  - vm_compute. reflexivity.
Defined.

End PdfProcessorMore.

(* ================================================================== *)
(** * pdf_processor.py: from a PDF file to documents *)
(* ================================================================== *)

Module Ingestion.
Import Py PdfProcessor PdfProcessorProofs PdfProcessorMore LawgptUtils.

(** [len(l)] for a list. *)
Definition count {A} (l : list A) : Z := Z.of_nat (List.length l).

(** A JSON-like Python value: what the dictionaries of the ingestion
    hold and what [json.load] returns. *)
#[local] Unset Elimination Schemes.
Inductive value :=
| VNone
| VBool (b : bool)
| VInt (z : Z)
| VFloat (q : Q)
| VStr (s : str)
| VList (l : list value)
| VDict (d : list (str * value)).
#[local] Set Elimination Schemes.

(** [str(i)] for an integer. *)
Definition str_of_int (z : Z) : str := u (NilZero.string_of_int (Z.to_int z)).

(** A [pathlib.Path]: the three views the code takes of it. *)
Record Path := {
  path_name : str;      (* pdf_path.name *)
  path_stem : str;      (* pdf_path.stem *)
  path_str : str        (* str(pdf_path) *)
}.

(** A PDF file as the two readers see it: the texts of its pages, or the
    exception opening or reading it raises. *)
Record PdfFile := {
  pdf_path : Path;
  pypdf2_pages : exc (list str);
  pypdf_pages : exc (list str)
}.

(** [text = ""; for page in pages: text += page.extract_text() + "\n"] *)
Definition pages_text (pages : list str) : str :=
  List.concat (map (fun page => page ++ [10%N]) pages).

Definition extract_text_from_pdf (file : PdfFile) : str :=
  match pypdf2_pages file with
  | Raise _ => []
  | Ok pages =>
      let text := pages_text pages in
      if (len (strip text) <? 100)%Z then
        match pypdf_pages file with
        | Raise _ => []
        | Ok pages' => strip (pages_text pages')
        end
      else strip text
  end.

Section WithDigest.
Context {db : UnicodeDB}.

(** [hashlib.md5(s.encode()).hexdigest()] *)
Variable md5_hexdigest : str -> str.

(** The dictionary [process_pdf] builds for chunk [i]. *)
Definition document (path : Path) (total_chunks : Z) (i : nat) (chunk : str)
  : dict value :=
  [ (u "id",
     VStr (md5_hexdigest (path_name path ++ u "_" ++ str_of_int (Z.of_nat i))));
    (u "title", VStr (path_stem path));
    (u "filename", VStr (path_name path));
    (u "chunk_index", VInt (Z.of_nat i));
    (u "text", VStr chunk);
    (u "source", VStr (u "pdf"));
    (u "law_type", VStr (categorize_law (path_name path)));
    (u "metadata",
     VDict [ (u "file_path", VStr (path_str path));
             (u "total_chunks", VInt total_chunks);
             (u "chunk_size", VInt (len chunk)) ]) ].

(** [for i, chunk in enumerate(chunks)], from index [i] on. *)
Fixpoint build_documents (path : Path) (total_chunks : Z) (i : nat)
    (chunks : list str) : list (dict value) :=
  match chunks with
  | [] => []
  | chunk :: rest =>
      if (len (strip chunk) <? 50)%Z
      then build_documents path total_chunks (S i) rest
      else document path total_chunks i chunk
           :: build_documents path total_chunks (S i) rest
  end.

Definition process_pdf (fuel : nat) (file : PdfFile)
  : option (exc (list (dict value))) :=
  let raw_text := extract_text_from_pdf file in
  match raw_text with
  | [] => Some (Ok [])
  | _ =>
      let cleaned_text := clean_text raw_text in
      match split_text_into_chunks fuel cleaned_text
              default_chunk_size default_overlap with
      | None => None
      | Some (Raise e) => Some (Raise e)
      | Some (Ok chunks) =>
          Some (Ok (build_documents (pdf_path file) (count chunks) 0 chunks))
      end
  end.

(** The loop of [process_all_pdfs] over the files of the directory. *)
Fixpoint process_files (fuel : nat) (pdf_files : list PdfFile)
    (all_documents : list (dict value)) : option (list (dict value)) :=
  match pdf_files with
  | [] => Some all_documents
  | pdf_file :: rest =>
      match process_pdf fuel pdf_file with
      | None => None
      | Some (Ok documents) =>
          process_files fuel rest (all_documents ++ documents)
      | Some (Raise _) => process_files fuel rest all_documents
      end
  end.

Definition process_all_pdfs (fuel : nat) (pdf_files : list PdfFile)
  : option (list (dict value)) :=
  match pdf_files with
  | [] => Some []
  | _ => process_files fuel pdf_files []
  end.

(** ** Extraction *)

(** X14: the text [extract_text_from_pdf] returns never starts or ends
    with whitespace.  When the first reader gives at least 100
    characters (once trimmed) the second reader is not consulted;
    otherwise the result is the trimmed text of the second reader alone,
    even if that is shorter, and the empty string when the second reader
    raises: the short text of the first reader is never returned. *)
Theorem extract_text_from_pdf_cases (file : PdfFile) :
  strip (extract_text_from_pdf file) = extract_text_from_pdf file
  /\ (forall pages,
        pypdf2_pages file = Ok pages ->
        (100 <= len (strip (pages_text pages)))%Z ->
        extract_text_from_pdf file = strip (pages_text pages))
  /\ (forall pages,
        pypdf2_pages file = Ok pages ->
        (len (strip (pages_text pages)) < 100)%Z ->
        extract_text_from_pdf file
        = match pypdf_pages file with
          | Ok pages' => strip (pages_text pages')
          | Raise _ => []
          end)
  /\ (forall e, pypdf2_pages file = Raise e -> extract_text_from_pdf file = []).
Proof.
  unfold extract_text_from_pdf. repeat split.
  - destruct (pypdf2_pages file) as [pages|e]; [|reflexivity].
    destruct (len (strip (pages_text pages)) <? 100)%Z; [|apply strip_idem].
    destruct (pypdf_pages file); [apply strip_idem|reflexivity].
  - intros pages -> Hlong.
    destruct (Z.ltb_spec (len (strip (pages_text pages))) 100); [lia|reflexivity].
  - intros pages -> Hshort.
    destruct (Z.ltb_spec (len (strip (pages_text pages))) 100); [reflexivity|lia].
  - now intros e ->.
Qed.

(** ** Documents *)

Lemma default_progressing : progressing default_chunk_size default_overlap.
Proof. unfold progressing, default_chunk_size, default_overlap. lia. Qed.

(** With the default configuration the chunker returns for every text. *)
Lemma split_default_returns (text : str) (fuel : nat) :
  (len text <= Z.of_nat fuel)%Z ->
  exists chunks,
    split_text_into_chunks fuel text default_chunk_size default_overlap
    = Some (Ok chunks)
    /\ Forall (fun chunk => (len chunk <= 1001)%Z
                 /\ (strip text = text -> strip chunk = chunk)) chunks.
Proof.
  intros Hfuel.
  destruct (Z.le_gt_cases (len text) default_chunk_size) as [Hshort|Hlong].
  - exists [text]. unfold split_text_into_chunks, split_trace.
    destruct (Z.leb_spec (len text) default_chunk_size); [|lia].
    split; [reflexivity|]. constructor; [|constructor].
    unfold default_chunk_size in *. split; [lia|trivial].
  - destruct (chunk_loop_windows text default_chunk_size default_overlap
                default_progressing fuel 0 [] [])
      as (ws & Hrun & _); [lia|lia|].
    assert (Hsplit : split_text_into_chunks fuel text default_chunk_size
                       default_overlap = Some (Ok (emitted text ws))).
    { unfold split_text_into_chunks, split_trace.
      destruct (Z.leb_spec (len text) default_chunk_size); [lia|].
      now rewrite Hrun. }
    exists (emitted text ws). split; [exact Hsplit|].
    pose proof (chunks_bounded text default_chunk_size default_overlap fuel
                  _ default_progressing Hlong Hsplit) as Hb.
    eapply Forall_impl; [|exact Hb]. cbn beta.
    intros chunk (_ & Hstrip & Hlen). unfold default_chunk_size in Hlen.
    split; [lia|trivial].
Qed.

(** What holds of a document of the file at [path]. *)
Definition document_ok (path : Path) (d : dict value) : Prop :=
  exists (total_chunks : Z) (i : nat) (chunk : str),
    d = document path total_chunks i chunk
    /\ (Z.of_nat i < total_chunks)%Z
    /\ (50 <= len chunk <= 1001)%Z
    /\ strip chunk = chunk.

Lemma build_documents_ok (path : Path) (total_chunks : Z)
    (chunks : list str) :
  forall i,
  (Z.of_nat i + count chunks <= total_chunks)%Z ->
  Forall (fun chunk => (len chunk <= 1001)%Z /\ strip chunk = chunk) chunks ->
  Forall (document_ok path) (build_documents path total_chunks i chunks).
Proof.
  induction chunks as [|chunk rest IH]; intros i Hi Hall; [constructor|].
  cbn [build_documents]. apply Forall_cons_iff in Hall as [[Hlen Hstrip] Hall].
  unfold count in Hi. cbn [List.length] in Hi.
  assert (Hrest : Forall (document_ok path)
                    (build_documents path total_chunks (S i) rest)).
  { apply IH; [unfold count; lia|exact Hall]. }
  destruct (Z.ltb_spec (len (strip chunk)) 50) as [Hshort|Hlong];
    [exact Hrest|].
  constructor; [|exact Hrest].
  exists total_chunks, i, chunk. rewrite Hstrip in Hlong.
  repeat split; try assumption; lia.
Qed.

(** X15: [process_pdf] returns for every file, within [len(raw text)]
    iterations of the chunker, and raises nothing.  Every document it
    returns carries a trimmed text of 50 to 1001 characters, the source
    ["pdf"], the category of the file name, and a [chunk_index] below
    [total_chunks]; a file without extractable text gives no document. *)
Theorem process_pdf_documents (file : PdfFile) (fuel : nat) :
  (len (extract_text_from_pdf file) <= Z.of_nat fuel)%Z ->
  exists documents,
    process_pdf fuel file = Some (Ok documents)
    /\ Forall (document_ok (pdf_path file)) documents
    /\ (extract_text_from_pdf file = [] -> documents = []).
Proof.
  intros Hfuel. unfold process_pdf.
  destruct (extract_text_from_pdf file) as [|c raw] eqn:Eraw.
  - exists []. repeat split. constructor.
  - destruct (split_default_returns (clean_text (c :: raw)) fuel)
      as (chunks & -> & Hall).
    { pose proof (clean_text_length (c :: raw)). unfold len in *. lia. }
    eexists. split; [reflexivity|]. split; [|discriminate].
    apply build_documents_ok; [lia|].
    eapply Forall_impl; [|exact Hall]. cbn beta.
    intros chunk [Hlen Hstrip]. split; [exact Hlen|].
    apply Hstrip, clean_text_stripped.
Qed.

Lemma process_files_concat (fuel : nat) (pdf_files : list PdfFile) :
  (forall file, In file pdf_files ->
     (len (extract_text_from_pdf file) <= Z.of_nat fuel)%Z) ->
  forall all_documents,
  exists per_file,
    Forall2 (fun file documents =>
               process_pdf fuel file = Some (Ok documents)
               /\ Forall (document_ok (pdf_path file)) documents)
      pdf_files per_file
    /\ process_files fuel pdf_files all_documents
       = Some (all_documents ++ List.concat per_file).
Proof.
  induction pdf_files as [|file rest IH]; intros Hfuel all_documents.
  - exists []. split; [constructor|]. cbn. now rewrite app_nil_r.
  - destruct (process_pdf_documents file fuel) as (documents & Hrun & Hok & _).
    { apply Hfuel. now left. }
    destruct (IH (fun f Hf => Hfuel f (or_intror Hf))
                (all_documents ++ documents)) as (per_file & Hall & Hrest).
    exists (documents :: per_file). split; [now constructor|].
    cbn [process_files List.concat]. rewrite Hrun, Hrest.
    now rewrite <- app_assoc.
Qed.

(** X16: [process_all_pdfs] returns the documents of the files one file
    after the other, in the order of the directory listing; no file makes
    it raise or stop, and an empty directory gives the empty list. *)
Theorem process_all_pdfs_concat (fuel : nat) (pdf_files : list PdfFile) :
  (forall file, In file pdf_files ->
     (len (extract_text_from_pdf file) <= Z.of_nat fuel)%Z) ->
  exists per_file,
    Forall2 (fun file documents =>
               process_pdf fuel file = Some (Ok documents)
               /\ Forall (document_ok (pdf_path file)) documents)
      pdf_files per_file
    /\ process_all_pdfs fuel pdf_files = Some (List.concat per_file).
Proof.
  intros Hfuel.
  destruct (process_files_concat fuel pdf_files Hfuel [])
    as (per_file & Hall & Hrun).
  exists per_file. split; [exact Hall|].
  unfold process_all_pdfs. destruct pdf_files; [|exact Hrun].
  inversion Hall. reflexivity.
Qed.

End WithDigest.

(** *** Closed instances *)

(** A stand-in for the digest in the closed instances; the theorems hold
    for every digest function. *)
Definition plain_digest (s : str) : str := s.

Definition labor_path : Path :=
  {| path_name := u "KSA_Labor_Law_2020.pdf";
     path_stem := u "KSA_Labor_Law_2020";
     path_str := u "data/KSA_Labor_Law_2020.pdf" |}.

(** A file the first reader reads in full. *)
Definition labor_file : PdfFile :=
  {| pdf_path := labor_path;
     pypdf2_pages := Ok [sample_text];
     pypdf_pages := Raise (Exception (u "not consulted")) |}.

(** A scanned file: the first reader finds a page number only, the
    second one fails. *)
Definition scanned_file : PdfFile :=
  {| pdf_path := labor_path;
     pypdf2_pages := Ok [u "Page 1 of 1"];
     pypdf_pages := Raise (Exception (u "EOF marker not found")) |}.

Definition unreadable_file : PdfFile :=
  {| pdf_path := labor_path;
     pypdf2_pages := Raise (Exception (u "No such file or directory"));
     pypdf_pages := Ok [sample_text] |}.

Lemma extract_text_from_pdf_cases_witness :
  extract_text_from_pdf labor_file = strip (pages_text [sample_text])
  /\ extract_text_from_pdf scanned_file = []
  /\ extract_text_from_pdf unreadable_file = [].
Proof.
  split; [|split].
  - apply (proj1 (proj2 (extract_text_from_pdf_cases labor_file))
             [sample_text] eq_refl).
    vm_compute. discriminate.
  - apply (proj1 (proj2 (proj2 (extract_text_from_pdf_cases scanned_file)))
             [u "Page 1 of 1"] eq_refl).
    vm_compute. reflexivity.
  - apply (proj2 (proj2 (proj2 (extract_text_from_pdf_cases unreadable_file)))
             (Exception (u "No such file or directory")) eq_refl).
Defined.

Lemma process_pdf_documents_witness :
  exists documents,
    process_pdf (db := basic_latin) plain_digest 2700 labor_file
    = Some (Ok documents)
    /\ Forall (document_ok (db := basic_latin) plain_digest labor_path)
         documents
    /\ (extract_text_from_pdf labor_file = [] -> documents = []).
Proof.
  apply (process_pdf_documents (db := basic_latin) plain_digest labor_file 2700).
  vm_compute. discriminate.
Defined.

Lemma process_all_pdfs_concat_witness :
  exists per_file,
    Forall2 (fun file documents =>
               process_pdf (db := basic_latin) plain_digest 2700 file
               = Some (Ok documents)
               /\ Forall (document_ok (db := basic_latin) plain_digest
                            (pdf_path file)) documents)
      [labor_file; scanned_file; unreadable_file] per_file
    /\ process_all_pdfs (db := basic_latin) plain_digest 2700
         [labor_file; scanned_file; unreadable_file]
       = Some (List.concat per_file).
Proof.
  apply (process_all_pdfs_concat (db := basic_latin) plain_digest 2700
           [labor_file; scanned_file; unreadable_file]).
  intros file [<-|[<-|[<-|[]]]]; vm_compute; discriminate.
Defined.

End Ingestion.

(* ================================================================== *)
(** * upload_data.py *)
(* ================================================================== *)

Module UploadData.
Import Py PdfProcessor LawgptUtils Ingestion.

(** The names of JSON values that cannot be iterated or stripped are of
    no interest here: one exception stands for the [TypeError]. *)
Definition TypeError : exn := Exception (u "object is not iterable").

(** ** load_cases_data *)

(** [for case in cases_data]: the items of a list, the keys of a
    dictionary, the characters of a string; other values raise. *)
Definition iterate (v : value) : exc (list value) :=
  match v with
  | VList l => Ok l
  | VDict d => Ok (map (fun kv => VStr (fst kv)) d)
  | VStr s => Ok (map (fun c => VStr [c]) s)
  | _ => Raise TypeError
  end.

Section WithDigest.

(** [hashlib.md5(s.encode()).hexdigest()] *)
Variable md5_hexdigest : str -> str.

(** The dictionary [load_cases_data] builds for the case at index [i]. *)
Definition case_document (i : nat) (case : dict value) : dict value :=
  [ (u "id", VStr (md5_hexdigest (u "case_" ++ str_of_int (Z.of_nat i))));
    (u "title",
     get case (u "case_id") (VStr (u "Case " ++ str_of_int (Z.of_nat i))));
    (u "text", get case (u "summary") (VStr []));
    (u "source", VStr (u "case"));
    (u "law_type", VStr (u "case_law"));
    (u "filename", VStr (u "case_" ++ str_of_int (Z.of_nat i)));
    (u "chunk_index", VInt 0);
    (u "metadata", VDict case) ].

(** [for i, case in enumerate(cases_data)], from index [i] on. *)
Fixpoint load_cases (i : nat) (cases : list value) : list (dict value) :=
  match cases with
  | [] => []
  | case :: rest =>
      match case with
      | VDict d =>
          match lookup d (u "summary") with
          | Some _ => case_document i d :: load_cases (S i) rest
          | None => load_cases (S i) rest
          end
      | _ => load_cases (S i) rest
      end
  end.

(** [cases_data]: what [json.load] gives for the file, or the exception
    of opening or parsing it. *)
Definition load_cases_data (cases_data : exc value) : list (dict value) :=
  match cases_data with
  | Raise _ => []
  | Ok v =>
      match iterate v with
      | Raise _ => []
      | Ok cases => load_cases 0 cases
      end
  end.

End WithDigest.

(** ** upload_documents *)

Definition batch_size : Z := 100.

Section WithStore.

(** [PointStruct] and the vector store are external: a point is built
    from an id, a vector and a payload, or the construction raises; an
    upsert changes the store and may raise. *)
Variables (Point Store : Type).
Variable encode : str -> exc vector.
Variable point_struct : value -> vector -> dict value -> exc Point.
Variable upsert : Store -> str -> list Point -> exc unit * Store.

(** The payload of the point of [doc]. *)
Definition payload_of (text : str) (doc : dict value) : dict value :=
  [ (u "text", VStr text);
    (u "title", get doc (u "title") (VStr []));
    (u "source", get doc (u "source") (VStr (u "unknown")));
    (u "law_type", get doc (u "law_type") (VStr (u "general")));
    (u "filename", get doc (u "filename") (VStr []));
    (u "chunk_index", get doc (u "chunk_index") (VInt 0));
    (u "metadata", get doc (u "metadata") (VDict [])) ].

(** The body of the [try] up to [points.append]: [Ok None] is the
    [continue] on a blank text. *)
Definition make_point (i : nat) (doc : dict value) : exc (option Point) :=
  match get doc (u "text") (VStr []) with
  | VStr text =>
      match strip text with
      | [] => Ok None
      | _ =>
          match encode text with
          | Raise e => Raise e
          | Ok embedding =>
              match point_struct
                      (get doc (u "id") (VStr (str_of_int (Z.of_nat i))))
                      embedding (payload_of text doc) with
              | Raise e => Raise e
              | Ok point => Ok (Some point)
              end
          end
      end
  | _ => Raise AttributeError
  end.

(** The [for] loop, from document [i] on: the pending [points] and the
    store at its end. *)
Fixpoint upload_loop (collection_name : str) (store : Store) (i : nat)
    (documents : list (dict value)) (points : list Point)
  : list Point * Store :=
  match documents with
  | [] => (points, store)
  | doc :: rest =>
      match make_point i doc with
      | Ok (Some point) =>
          let points := points ++ [point] in
          if (batch_size <=? count points)%Z then
            match upsert store collection_name points with
            | (Ok _, store') => upload_loop collection_name store' (S i) rest []
            | (Raise _, store') =>
                upload_loop collection_name store' (S i) rest points
            end
          else upload_loop collection_name store (S i) rest points
      | _ => upload_loop collection_name store (S i) rest points
      end
  end.

Definition upload_documents (qdrant_client : option Store)
    (documents : list (dict value)) (collection_name : str)
  : bool * option Store :=
  match qdrant_client with
  | None => (false, None)
  | Some store =>
      match documents with
      | [] => (false, Some store)
      | _ =>
          let (points, store) :=
            upload_loop collection_name store 0 documents [] in
          match points with
          | [] => (true, Some store)
          | _ => (true, Some (snd (upsert store collection_name points)))
          end
      end
  end.

(** The points of the documents that have one, in order. *)
Fixpoint points_of (i : nat) (documents : list (dict value)) : list Point :=
  match documents with
  | [] => []
  | doc :: rest =>
      match make_point i doc with
      | Ok (Some point) => point :: points_of (S i) rest
      | _ => points_of (S i) rest
      end
  end.

End WithStore.

(** ** Properties of load_cases_data *)

Section CasesFile.
Variable md5_hexdigest : str -> str.

Lemma load_cases_in (cases : list value) (d : dict value) :
  forall i0,
  In d (load_cases md5_hexdigest i0 cases) <->
  exists j case,
    nth_error cases j = Some (VDict case)
    /\ lookup case (u "summary") <> None
    /\ d = case_document md5_hexdigest (i0 + j) case.
Proof.
  induction cases as [|c cases IH]; intros i0.
  - cbn. split; [easy|]. intros (j & case & H & _). now destruct j.
  - assert (Hskip :
      (forall case, c = VDict case -> lookup case (u "summary") = None) ->
      In d (load_cases md5_hexdigest (S i0) cases) <->
      exists j case,
        nth_error (c :: cases) j = Some (VDict case)
        /\ lookup case (u "summary") <> None
        /\ d = case_document md5_hexdigest (i0 + j) case).
    { intros Hc. rewrite IH. split.
      - intros (j & case & Hn & Hs & ->). exists (S j), case.
        repeat split; [exact Hn|exact Hs|f_equal; lia].
      - intros (j & case & Hn & Hs & ->). destruct j as [|j].
        + cbn in Hn. injection Hn as ->. now rewrite (Hc case eq_refl) in Hs.
        + exists j, case. repeat split; [exact Hn|exact Hs|f_equal; lia]. }
    cbn [load_cases].
    destruct c as [| | | | |l|case0]; try (apply Hskip; discriminate).
    destruct (lookup case0 (u "summary")) as [v|] eqn:Es.
    + cbn [In]. rewrite IH. split.
      * intros [<-|(j & case & Hn & Hs & ->)].
        -- exists O, case0. repeat split; [congruence|f_equal; lia].
        -- exists (S j), case. repeat split; [exact Hn|exact Hs|f_equal; lia].
      * intros (j & case & Hn & Hs & ->). destruct j as [|j].
        -- left. cbn in Hn. injection Hn as ->. f_equal. lia.
        -- right. exists j, case. repeat split; [exact Hn|exact Hs|f_equal; lia].
    + apply Hskip. now intros case [= <-].
Qed.

Lemma load_cases_no_dict (cases : list value) :
  Forall (fun c => forall d, c <> VDict d) cases ->
  forall i, load_cases md5_hexdigest i cases = [].
Proof.
  induction 1 as [|c cases Hc _ IH]; intros i; [reflexivity|].
  cbn [load_cases]. destruct c; try apply IH. now destruct (Hc d).
Qed.

(** [enumerate(l)] *)
Definition enumerate {A} (l : list A) : list (nat * A) :=
  combine (seq 0 (List.length l)) l.

(** An object with a ["summary"] key. *)
Definition has_summary (v : value) : bool :=
  match v with
  | VDict d => match lookup d (u "summary") with Some _ => true | None => false end
  | _ => false
  end.

(** The documents one entry of the file gives: one or none. *)
Definition documents_at (entry : nat * value) : list (dict value) :=
  match snd entry with
  | VDict d =>
      if has_summary (VDict d)
      then [case_document md5_hexdigest (fst entry) d] else []
  | _ => []
  end.

Lemma load_cases_flat_map (cases : list value) :
  forall i0,
  load_cases md5_hexdigest i0 cases
  = flat_map documents_at (combine (seq i0 (List.length cases)) cases).
Proof.
  induction cases as [|c cases IH]; intros i0; [reflexivity|].
  cbn [load_cases List.length seq combine flat_map]. rewrite <- IH.
  unfold documents_at. cbn [fst snd].
  destruct c as [| | | | | |d]; try reflexivity.
  cbn [has_summary]. now destruct (lookup d (u "summary")).
Qed.

Lemma load_cases_length (cases : list value) :
  forall i0,
  List.length (load_cases md5_hexdigest i0 cases)
  = List.length (filter has_summary cases).
Proof.
  induction cases as [|c cases IH]; intros i0; [reflexivity|].
  cbn [load_cases filter].
  destruct c as [| | | | | |d]; cbn [has_summary]; try apply IH.
  destruct (lookup d (u "summary")); cbn [List.length]; now rewrite IH.
Qed.

(** X17: from a JSON array, [load_cases_data] returns, in the order of
    the array, exactly one document for every object that has a
    ["summary"] key and nothing for any other entry; the document of the
    entry at position [i] is numbered [i], so skipped entries leave gaps
    in the numbering.  A file that cannot be read or parsed, and a file
    whose top level is not an array, give the empty list. *)
Theorem load_cases_data_documents :
  (forall cases,
     load_cases_data md5_hexdigest (Ok (VList cases))
     = flat_map documents_at (enumerate cases))
  /\ (forall cases,
        List.length (load_cases_data md5_hexdigest (Ok (VList cases)))
        = List.length (filter has_summary cases))
  /\ (forall cases d,
        In d (load_cases_data md5_hexdigest (Ok (VList cases))) <->
        exists i case,
          nth_error cases i = Some (VDict case)
          /\ lookup case (u "summary") <> None
          /\ d = case_document md5_hexdigest i case)
  /\ (forall v, (forall cases, v <> VList cases) ->
        load_cases_data md5_hexdigest (Ok v) = [])
  /\ (forall e, load_cases_data md5_hexdigest (Raise e) = []).
Proof.
  split; [|split; [|split; [|split]]].
  - intros cases. apply (load_cases_flat_map cases 0).
  - intros cases. apply (load_cases_length cases 0).
  - intros cases d. unfold load_cases_data. cbn [iterate].
    apply (load_cases_in cases d 0).
  - intros v Hv. unfold load_cases_data.
    destruct v as [| | | |s|l|d]; try reflexivity; cbn [iterate].
    + apply load_cases_no_dict. apply Forall_forall.
      intros c Hc. apply in_map_iff in Hc as (x & <- & _). discriminate.
    + now destruct (Hv l).
    + apply load_cases_no_dict. apply Forall_forall.
      intros c Hc. apply in_map_iff in Hc as (x & <- & _). discriminate.
  - reflexivity.
Qed.

End CasesFile.

(** ** Properties of upload_documents *)

Section Batches.
Variable Point : Type.
Variable encode : str -> exc vector.
Variable point_struct : value -> vector -> dict value -> exc Point.

(** A store that accepts every upsert; its state is the list of the
    batches it received. *)
Definition accept (log : list (list Point)) (collection_name : str)
    (points : list Point) : exc unit * list (list Point) :=
  (Ok tt, log ++ [points]).

(** A store whose every upsert raises; its state is the list of the
    batches it was sent. *)
Definition reject (e : exn) (log : list (list Point))
    (collection_name : str) (points : list Point)
  : exc unit * list (list Point) :=
  (Raise e, log ++ [points]).

Lemma count_app {A} (l l' : list A) : count (l ++ l') = (count l + count l')%Z.
Proof. unfold count. rewrite length_app. lia. Qed.

Lemma upload_loop_accept (collection_name : str)
    (documents : list (dict value)) :
  forall i pending log,
  (count pending < batch_size)%Z ->
  exists full pending',
    upload_loop Point (list (list Point)) encode point_struct accept
      collection_name log i documents pending
    = (pending', log ++ full)
    /\ List.concat full ++ pending'
       = pending ++ points_of Point encode point_struct i documents
    /\ Forall (fun b => count b = batch_size) full
    /\ (count pending' < batch_size)%Z.
Proof.
  induction documents as [|doc rest IH]; intros i pending log Hp.
  - exists [], pending. cbn. rewrite !app_nil_r. auto.
  - cbn [upload_loop points_of].
    destruct (make_point Point encode point_struct i doc) as [[point|]|e].
    + destruct (Z.leb_spec batch_size (count (pending ++ [point]))) as [Hfull|Hnot].
      * unfold accept at 1.
        destruct (IH (S i) [] (log ++ [pending ++ [point]]))
          as (full & pending' & Hrun & Hcat & Hall & Hp');
          [unfold batch_size, count; cbn; lia|].
        exists ((pending ++ [point]) :: full), pending'.
        rewrite Hrun, <- app_assoc. split; [reflexivity|]. split.
        -- cbn [List.concat]. rewrite <- !app_assoc. cbn [app] in *.
           now rewrite Hcat.
        -- split; [|exact Hp']. constructor; [|exact Hall].
           rewrite count_app in *. unfold count in *. cbn in *. lia.
      * destruct (IH (S i) (pending ++ [point]) log Hnot)
          as (full & pending' & Hrun & Hcat & Hall & Hp').
        exists full, pending'. rewrite Hrun, Hcat, <- app_assoc. auto.
    + apply IH, Hp.
    + apply IH, Hp.
Qed.

(** X18: with a store that accepts every upsert, [upload_documents]
    sends each point exactly once and in the order of the documents, in
    batches of exactly 100 points followed by at most one shorter last
    batch; documents without a point (blank or non-string text, failed
    embedding) are passed over.  Without a client, and for an empty list
    of documents, it returns [False] and sends nothing. *)
Theorem upload_documents_batches (collection_name : str)
    (log : list (list Point)) :
  (forall doc rest,
     exists batches,
       upload_documents Point (list (list Point)) encode point_struct accept
         (Some log) (doc :: rest) collection_name
       = (true, Some (log ++ batches))
       /\ List.concat batches
          = points_of Point encode point_struct 0 (doc :: rest)
       /\ Forall (fun b => (1 <= count b <= batch_size)%Z) batches
       /\ Forall (fun b => count b = batch_size) (removelast batches))
  /\ upload_documents Point (list (list Point)) encode point_struct accept
       (Some log) [] collection_name = (false, Some log)
  /\ (forall documents,
        upload_documents Point (list (list Point)) encode point_struct accept
          None documents collection_name = (false, None)).
Proof.
  split; [|split; reflexivity].
  intros doc rest. unfold upload_documents.
  destruct (upload_loop_accept collection_name (doc :: rest) 0 [] log)
    as (full & pending & Hrun & Hcat & Hall & Hp);
    [unfold batch_size, count; cbn; lia|].
  rewrite Hrun. cbn [app] in Hcat.
  assert (Hfull : Forall (fun b => (1 <= count b <= batch_size)%Z) full).
  { eapply Forall_impl; [|exact Hall]. cbn beta. unfold batch_size. lia. }
  destruct pending as [|pt pending].
  - exists full. rewrite app_nil_r in Hcat. repeat split; try assumption.
    clear - Hall. induction Hall as [|b full Hb Hall IH]; [constructor|].
    destruct full; [constructor|]. cbn [removelast]. now constructor.
  - exists (full ++ [pt :: pending]). unfold accept at 1. cbn [snd].
    rewrite <- app_assoc. split; [reflexivity|]. split.
    + rewrite concat_app. cbn [List.concat]. now rewrite app_nil_r.
    + split.
      * apply Forall_app. split; [exact Hfull|]. constructor; [|constructor].
        unfold count in *. cbn [List.length] in *. lia.
      * now rewrite removelast_last.
Qed.

Lemma firstn_length_app {A} (l l' : list A) :
  firstn (List.length l) (l ++ l') = l.
Proof.
  rewrite firstn_app, Nat.sub_diag, firstn_all. cbn. apply app_nil_r.
Qed.

Lemma upload_loop_reject (e : exn) (collection_name : str)
    (documents : list (dict value)) :
  forall i pending log,
  let rest_points := points_of Point encode point_struct i documents in
  upload_loop Point (list (list Point)) encode point_struct (reject e)
    collection_name log i documents pending
  = (pending ++ rest_points,
     log ++ map (fun k => firstn k (pending ++ rest_points))
              (filter (fun k => (100 <=? k)%nat)
                 (seq (S (List.length pending)) (List.length rest_points)))).
Proof.
  induction documents as [|doc rest IH]; intros i pending log; cbn zeta.
  - cbn. now rewrite !app_nil_r.
  - cbn [upload_loop points_of].
    destruct (make_point Point encode point_struct i doc) as [[point|]|x];
      try apply IH.
    cbn [List.length seq filter].
    set (q := points_of Point encode point_struct (S i) rest).
    assert (Hlen : List.length (pending ++ [point]) = S (List.length pending)).
    { rewrite length_app. cbn. lia. }
    assert (Hcons : pending ++ point :: q = (pending ++ [point]) ++ q).
    { now rewrite <- app_assoc. }
    destruct (Z.leb_spec batch_size (count (pending ++ [point]))) as [Hfull|Hnot].
    + unfold reject at 1. rewrite IH. cbn zeta. fold q. rewrite Hlen.
      destruct (Nat.leb_spec 100 (S (List.length pending))) as [_|Hlt].
      2:{ unfold batch_size, count in Hfull. lia. }
      cbn [map].
      assert (Hfirst : firstn (S (List.length pending)) (pending ++ point :: q)
                       = pending ++ [point]).
      { rewrite Hcons, <- Hlen. apply firstn_length_app. }
      rewrite Hfirst, <- !app_assoc. reflexivity.
    + rewrite IH. cbn zeta. fold q. rewrite Hlen.
      destruct (Nat.leb_spec 100 (S (List.length pending))) as [Hge|_].
      { unfold batch_size, count in Hnot. lia. }
      now rewrite <- Hcons.
Qed.

(** X19: with a store whose every upsert raises, [upload_documents]
    still returns [True].  A full batch that failed is not dropped: its
    points stay pending and are sent again with each further point, so
    the [k]-th point from the hundredth on triggers an upsert of the
    first [k] points, and after the loop all the points are sent once
    more. *)
Theorem upload_documents_failing_store (e : exn) (collection_name : str)
    (log : list (list Point)) (doc : dict value) (rest : list (dict value)) :
  let points := points_of Point encode point_struct 0 (doc :: rest) in
  upload_documents Point (list (list Point)) encode point_struct (reject e)
    (Some log) (doc :: rest) collection_name
  = (true,
     Some (log
           ++ map (fun k => firstn k points)
                (filter (fun k => (100 <=? k)%nat)
                   (seq 1 (List.length points)))
           ++ match points with [] => [] | _ => [points] end)).
Proof.
  cbn zeta. unfold upload_documents.
  rewrite upload_loop_reject. cbn zeta. cbn [app List.length].
  destruct (points_of Point encode point_struct 0 (doc :: rest)) as [|pt pts].
  - cbn. now rewrite app_nil_r.
  - unfold reject at 1. cbn [snd]. now rewrite <- app_assoc.
Qed.

End Batches.

(** ** From the documents of the ingestion to points *)

Section DocumentsToPoints.
Context {db : UnicodeDB}.
Variable md5_hexdigest : str -> str.
Variable Point : Type.
Variable encode : str -> exc vector.
Variable point_struct : value -> vector -> dict value -> exc Point.

(** What [make_point] does once the text is known not to be blank. *)
Definition point_for (id : value) (text : str) (payload : dict value)
  : exc (option Point) :=
  match encode text with
  | Raise e => Raise e
  | Ok embedding =>
      match point_struct id embedding payload with
      | Raise e => Raise e
      | Ok point => Ok (Some point)
      end
  end.

(** X20: a document of [process_pdf] is never passed over as blank by
    [upload_documents]: its point is built from its text, with the
    digest of the file name and chunk index as id, not the position in
    the upload list, and the payload repeats the document field by
    field, so none of the defaults ["unknown"], ["general"] or 0 is
    used. *)
Theorem pdf_document_point (path : Path) (total_chunks : Z) (i j : nat)
    (chunk : str) :
  strip chunk <> [] ->
  make_point Point encode point_struct j
    (document md5_hexdigest path total_chunks i chunk)
  = point_for
      (VStr (md5_hexdigest
               (path_name path ++ u "_" ++ str_of_int (Z.of_nat i))))
      chunk
      [ (u "text", VStr chunk);
        (u "title", VStr (path_stem path));
        (u "source", VStr (u "pdf"));
        (u "law_type", VStr (categorize_law (path_name path)));
        (u "filename", VStr (path_name path));
        (u "chunk_index", VInt (Z.of_nat i));
        (u "metadata",
         VDict [ (u "file_path", VStr (path_str path));
                 (u "total_chunks", VInt total_chunks);
                 (u "chunk_size", VInt (len chunk)) ]) ].
Proof.
  intros Hblank. unfold make_point, point_for.
  change (get (document md5_hexdigest path total_chunks i chunk)
            (u "text") (VStr [])) with (VStr chunk).
  cbv beta iota. destruct (strip chunk); [congruence|]. reflexivity.
Qed.

(** X21: a case loaded by [load_cases_data] gets a point only if its
    ["summary"] is a string that is not blank.  A summary that is
    [null], a number or a list makes the [try] block raise, and the
    case, although loaded, is never uploaded; a blank summary is
    skipped.  Otherwise the point has the digest of ["case_<i>"] as id
    and a payload with source ["case"] and law type ["case_law"]. *)
Theorem case_document_point (i j : nat) (case : dict value) :
  make_point Point encode point_struct j (case_document md5_hexdigest i case)
  = match get case (u "summary") (VStr []) with
    | VStr summary =>
        match strip summary with
        | [] => Ok None
        | _ =>
            point_for
              (VStr (md5_hexdigest (u "case_" ++ str_of_int (Z.of_nat i))))
              summary
              [ (u "text", VStr summary);
                (u "title",
                 get case (u "case_id")
                   (VStr (u "Case " ++ str_of_int (Z.of_nat i))));
                (u "source", VStr (u "case"));
                (u "law_type", VStr (u "case_law"));
                (u "filename", VStr (u "case_" ++ str_of_int (Z.of_nat i)));
                (u "chunk_index", VInt 0);
                (u "metadata", VDict case) ]
        end
    | _ => Raise AttributeError
    end.
Proof.
  unfold make_point, point_for.
  change (get (case_document md5_hexdigest i case) (u "text") (VStr []))
    with (get case (u "summary") (VStr [])).
  destruct (get case (u "summary") (VStr [])) as [| | | |summary| |];
    reflexivity.
Qed.

End DocumentsToPoints.

(** *** Closed instances *)

Definition cases_file : list value :=
  [ VDict [ (u "case_id", VStr (u "C-7")); (u "summary", VStr (u "Dismissal upheld.")) ];
    VStr (u "a note between the cases");
    VDict [ (u "court", VStr (u "Riyadh")) ];
    VDict [ (u "summary", VNone) ] ].

Lemma pdf_document_point_witness :
  make_point (list N) (fun _ => Ok [1; 0]) (fun _ _ _ => Ok [])
    0 (document (db := basic_latin) plain_digest labor_path 4 2
         (u "Working hours shall not exceed eight hours a day."))
  = Ok (Some []).
Proof.
  rewrite (pdf_document_point (db := basic_latin) plain_digest (list N)
             (fun _ => Ok [1; 0]) (fun _ _ _ => Ok [])
             labor_path 4 2 0
             (u "Working hours shall not exceed eight hours a day.")).
  - reflexivity.
  - vm_compute. discriminate.
Defined.

Lemma load_cases_data_documents_witness :
  In (case_document plain_digest 3 [ (u "summary", VNone) ])
    (load_cases_data plain_digest (Ok (VList cases_file)))
  /\ load_cases_data plain_digest
       (Ok (VDict [ (u "cases", VList cases_file) ])) = [].
Proof.
  split.
  - apply (proj1 (proj2 (proj2 (load_cases_data_documents plain_digest)))
             cases_file).
    exists 3%nat, [ (u "summary", VNone) ].
    repeat split. discriminate.
  - apply (proj1 (proj2 (proj2 (proj2
             (load_cases_data_documents plain_digest))))).
    discriminate.
Defined.

End UploadData.
